(** * ReplSetDistLockManager: a shallow embedding and its properties

    The development follows
    [src/mongo/s/catalog/replset/replset_dist_lock_manager.cpp].

    The manager is a C++ class whose methods talk to collaborators that are
    not part of that file: the catalog client ([DistLockCatalog]), the object
    id generator ([OID::gen]), the clocks ([Timer], [Date_t::now]), the
    sleeping primitives and the other threads of the process.  All of them
    are gathered in one abstract environment of type [E]; every call into a
    collaborator is a transition of that environment, and the theorems say
    which contract of the collaborators they rely on.

    Durations ([stdx::chrono::milliseconds]) are modelled by their tick
    count, a signed 64-bit integer kept in [Z]; the one subtraction of
    durations the manager makes wraps around. *)

From Stdlib Require Import ZArith List String Bool Lia.
Import ListNotations.

Local Open Scope string_scope.
Local Open Scope list_scope.
Local Open Scope Z_scope.

(** ** Base types *)

Definition OID := N.
Definition DistLockHandle := OID.
Definition Date_t := Z.
Definition milliseconds := Z.

(** The tick count of a duration ([stdx::chrono::milliseconds::rep]) is a
    signed 64-bit integer: a difference that leaves the range wraps
    around. *)
Definition wrap64 (z : Z) : Z :=
  (z + 9223372036854775808) mod 18446744073709551616 - 9223372036854775808.

(** [a - b] on [milliseconds] *)
Definition milliseconds_minus (a b : milliseconds) : milliseconds :=
  wrap64 (a - b).

Module ErrorCodes.

(** The error codes the manager names, and every other code of the server
    under [OtherError]. *)
Inductive Error :=
| OK
| LockStateChangeFailed
| LockBusy
| LockNotFound
| OtherError (n : nat).

Definition eqb (a b : Error) : bool :=
  match a, b with
  | OK, OK => true
  | LockStateChangeFailed, LockStateChangeFailed => true
  | LockBusy, LockBusy => true
  | LockNotFound, LockNotFound => true
  | OtherError n, OtherError m => Nat.eqb n m
  | _, _ => false
  end.

End ErrorCodes.

Record Status := mkStatus { code : ErrorCodes.Error; reason : string }.

Definition Status_OK : Status := mkStatus ErrorCodes.OK "".

Definition isOK (s : Status) : bool := ErrorCodes.eqb (code s) ErrorCodes.OK.

(** [status != ErrorCodes::X] compares the code only. *)
Definition Status_neq (s : Status) (c : ErrorCodes.Error) : bool :=
  negb (ErrorCodes.eqb (code s) c).

Inductive StatusWith (T : Type) :=
| SW_error (s : Status)
| SW_value (v : T).
Arguments SW_error {T} s.
Arguments SW_value {T} v.

Definition getStatus {T} (r : StatusWith T) : Status :=
  match r with
  | SW_error s => s
  | SW_value _ => Status_OK
  end.

Definition getValue {T} (r : StatusWith T) : option T :=
  match r with
  | SW_error _ => None
  | SW_value v => Some v
  end.

(** [StatusWith<T>::isOK] *)
Definition SW_isOK {T} (r : StatusWith T) : bool := isOK (getStatus r).

(** A [ScopedDistLock] carries the session id of the lock it holds. *)
Record ScopedDistLock := mkScopedDistLock { lockID : DistLockHandle }.

(** [std::thread]: joinable from its start until it is joined. *)
Record thread := mkThread { joinable : bool }.

(** ** Other threads

    Every access of the manager to [_isShutDown] and [_unlockList] holds
    [_mutex].  What the other threads of the process did to these two fields
    since this thread last held the mutex is seen when it takes the mutex
    again; the environment tells which critical sections of the manager the
    other threads ran in between. *)
Inductive Concurrent :=
| OtherShutDown                         (* shutDown, lines 67-69 *)
| OtherQueueUnlock (h : DistLockHandle) (* queueUnlock, lines 199-200 *)
| OtherSwap.                            (* doTask, lines 97-98 *)

(** ** What an execution does, in order *)
Inductive Event :=
| EvOIDGen (id : OID)
| EvGrabLock (name : string) (id : OID) (who processID : string)
             (now : Date_t) (why : string) (st : Status)
| EvUnlock (h : DistLockHandle) (st : Status)
| EvGetLockByTS (h : DistLockHandle) (st : Status)
| EvPing (processID : string) (now : Date_t) (st : Status)
| EvStopPing (processID : string) (st : Status)
| EvQueueUnlock (h : DistLockHandle)
| EvSleepFor (d : milliseconds)
| EvWaitFor (d : milliseconds)
| EvNotifyAll
| EvThreadStart
| EvThreadJoin
| EvWarnStopPing (processID : string) (cause : Status)
| EvWarnUnlock (h : DistLockHandle) (cause : Status)
| EvLogWaited (secs : Z) (name why : string).

(** ** The collaborators *)

(** [DistLockCatalog] (mongo/s/catalog/dist_lock_catalog.h) is an abstract
    class; [LocksType] (mongo/s/type_locks.h) is the document it returns.
    Neither is among the sources: both are parameters. *)
Class DistLockCatalog (E LocksType : Type) := {
  grabLock : string -> OID -> string -> string -> Date_t -> string ->
             E -> StatusWith LocksType * E;
  unlock_ : DistLockHandle -> E -> Status * E;   (* DistLockCatalog::unlock *)
  getLockByTS : DistLockHandle -> E -> StatusWith LocksType * E;
  ping : string -> Date_t -> E -> Status * E;
  stopPing : string -> E -> Status * E;
  isValid : LocksType -> bool
}.

(** The rest of the process: id generation, clocks, sleeping, threads. *)
Class Platform (E : Type) := {
  OID_gen : E -> OID * E;
  getThreadName : E -> string;
  Date_now : E -> Date_t;
  curTimeMillis : E -> Z;
  sleepFor : milliseconds -> E -> E;
  cv_wait_for : milliseconds -> E -> E;
  thread_join : E -> E;
  others : E -> list Concurrent * E
}.

(** ** The manager *)

Record ReplSetDistLockManager := mkManager {
  _processID : string;
  _pingInterval : milliseconds;
  _execThread : option thread;
  _unlockList : list DistLockHandle;
  _isShutDown : bool
}.

Definition set_execThread (t : option thread) (m : ReplSetDistLockManager) :=
  mkManager (_processID m) (_pingInterval m) t (_unlockList m) (_isShutDown m).

Definition set_unlockList (l : list DistLockHandle) (m : ReplSetDistLockManager) :=
  mkManager (_processID m) (_pingInterval m) (_execThread m) l (_isShutDown m).

Definition set_isShutDown (b : bool) (m : ReplSetDistLockManager) :=
  mkManager (_processID m) (_pingInterval m) (_execThread m) (_unlockList m) b.

(** [_unlockList.push_back(h)] *)
Definition push_back (h : DistLockHandle) (m : ReplSetDistLockManager) :=
  set_unlockList (_unlockList m ++ [h]) m.

(** Modelled from the spec: the in-class initialisers of [_isShutDown],
    [_unlockList] and [_execThread] are in replset_dist_lock_manager.h, which
    is not among the sources; the constructor (lines 51-57) sets the other
    fields.  The spec has the flag start false ("set once, never cleared"),
    the queue start empty and the task start absent. *)
Definition ReplSetDistLockManager_new (processID : string)
  (pingInterval : milliseconds) : ReplSetDistLockManager :=
  mkManager processID pingInterval None [] false.

(** The effect of another thread's critical section on the shared fields. *)
Definition apply_concurrent (m : ReplSetDistLockManager) (c : Concurrent)
  : ReplSetDistLockManager :=
  match c with
  | OtherShutDown => set_isShutDown true m
  | OtherQueueUnlock h => push_back h m
  | OtherSwap => set_unlockList [] m
  end.

Definition apply_concurrents (cs : list Concurrent) (m : ReplSetDistLockManager)
  : ReplSetDistLockManager :=
  fold_left apply_concurrent cs m.

(** How many times a handle is in the pending-unlock queue. *)
Definition pending (h : DistLockHandle) (m : ReplSetDistLockManager) : nat :=
  count_occ N.eq_dec (_unlockList m) h.

(** ** Reading a trace *)

(** The session ids passed to grabLock, in order. *)
Fixpoint grab_ids (tr : list Event) : list OID :=
  match tr with
  | [] => []
  | EvGrabLock _ id _ _ _ _ _ :: rest => id :: grab_ids rest
  | _ :: rest => grab_ids rest
  end.

(** The durations passed to [sleepFor], in order. *)
Fixpoint sleeps (tr : list Event) : list milliseconds :=
  match tr with
  | [] => []
  | EvSleepFor d :: rest => d :: sleeps rest
  | _ :: rest => sleeps rest
  end.

(** The handles whose catalog unlock was attempted, in order. *)
Fixpoint unlocked (tr : list Event) : list DistLockHandle :=
  match tr with
  | [] => []
  | EvUnlock h _ :: rest => h :: unlocked rest
  | _ :: rest => unlocked rest
  end.

(** Operations on the background thread. *)
Fixpoint thread_events (tr : list Event) : list Event :=
  match tr with
  | [] => []
  | EvThreadStart :: rest => EvThreadStart :: thread_events rest
  | EvThreadJoin :: rest => EvThreadJoin :: thread_events rest
  | _ :: rest => thread_events rest
  end.

(** The handles pushed onto the pending-unlock queue by this thread, in
    order. *)
Fixpoint queued (tr : list Event) : list DistLockHandle :=
  match tr with
  | [] => []
  | EvQueueUnlock h :: rest => h :: queued rest
  | _ :: rest => queued rest
  end.

(** The handles whose catalog unlock failed, in order. *)
Fixpoint unlock_failures (tr : list Event) : list DistLockHandle :=
  match tr with
  | [] => []
  | EvUnlock h st :: rest =>
      if isOK st then unlock_failures rest else h :: unlock_failures rest
  | _ :: rest => unlock_failures rest
  end.

(** The statuses the catalog unlock came back with, in order. *)
Fixpoint unlock_statuses (tr : list Event) : list Status :=
  match tr with
  | [] => []
  | EvUnlock _ st :: rest => st :: unlock_statuses rest
  | _ :: rest => unlock_statuses rest
  end.

(** The statuses grabLock came back with, in order. *)
Fixpoint grab_statuses (tr : list Event) : list Status :=
  match tr with
  | [] => []
  | EvGrabLock _ _ _ _ _ _ st :: rest => st :: grab_statuses rest
  | _ :: rest => grab_statuses rest
  end.

(** The process ids pinged, in order. *)
Fixpoint pings (tr : list Event) : list string :=
  match tr with
  | [] => []
  | EvPing processID _ _ :: rest => processID :: pings rest
  | _ :: rest => pings rest
  end.

(** The durations waited on the shutdown condition, in order. *)
Fixpoint waits (tr : list Event) : list milliseconds :=
  match tr with
  | [] => []
  | EvWaitFor d :: rest => d :: waits rest
  | _ :: rest => waits rest
  end.

(** Every grabLock of the trace is for the lock [name], with the reason
    [why], under the process id [processID] and an owner description that
    starts with it. *)
Fixpoint grabs_are_for (name why processID : string) (tr : list Event) : Prop :=
  match tr with
  | [] => True
  | EvGrabLock name' _ who processID' _ why' _ :: rest =>
      name' = name /\ why' = why /\ processID' = processID /\
      (exists threadName, who = (processID ++ ":" ++ threadName)%string) /\
      grabs_are_for name why processID rest
  | _ :: rest => grabs_are_for name why processID rest
  end.

(** What the stop-ping of [shutDown] leaves in the trace: the call, and a
    warning when it failed. *)
Definition stopPing_events (processID : string) (st : Status) : list Event :=
  EvStopPing processID st ::
  (if isOK st then [] else [EvWarnStopPing processID st]).

(** What [shutDown] does to the task handle (lines 74-77). *)
Definition joined (t : option thread) : option thread :=
  match t with
  | Some th => if joinable th then None else Some th
  | None => None
  end.

(** Every grabLock is handed the id minted just before it, and every minted
    id goes to the grabLock that follows. *)
Fixpoint minted_per_attempt (tr : list Event) : Prop :=
  match tr with
  | [] => True
  | EvOIDGen id :: EvGrabLock _ id' _ _ _ _ _ :: rest =>
      id = id' /\ minted_per_attempt rest
  | EvOIDGen _ :: _ => False
  | EvGrabLock _ _ _ _ _ _ _ :: _ => False
  | _ :: rest => minted_per_attempt rest
  end.

Section Manager.

Context {E LocksType : Type}.
Context {catalog : DistLockCatalog E LocksType}.
Context {platform : Platform E}.

Record World := mkWorld {
  mgr : ReplSetDistLockManager;
  env : E;
  trace : list Event
}.

(** How a call ends: it returns, it is still running when the fuel of its
    loop is used up, or the process dies ([std::terminate], a failed
    invariant). *)
Inductive Result (A : Type) :=
| Done (a : A) (w : World)
| OutOfFuel (w : World)
| Crashed (w : World).
Arguments Done {A} a w.
Arguments OutOfFuel {A} w.
Arguments Crashed {A} w.

Definition final {A} (r : Result A) : World :=
  match r with
  | Done _ w => w
  | OutOfFuel w => w
  | Crashed w => w
  end.

(** What a call returns, when it returns. *)
Definition value {A} (r : Result A) : option A :=
  match r with
  | Done a _ => Some a
  | OutOfFuel _ => None
  | Crashed _ => None
  end.

Definition M (A : Type) := World -> Result A.

Definition ret {A} (a : A) : M A := fun w => Done a w.

Definition bind {A B} (m : M A) (k : A -> M B) : M B :=
  fun w =>
    match m w with
    | Done a w' => k a w'
    | OutOfFuel w' => OutOfFuel w'
    | Crashed w' => Crashed w'
    end.

Notation "x <- m ;; k" := (bind m (fun x => k))
  (at level 61, m at next level, right associativity).
Notation "m ;; k" := (bind m (fun _ => k))
  (at level 61, right associativity).

Definition out_of_fuel {A} : M A := fun w => OutOfFuel w.
Definition crash {A} : M A := fun w => Crashed w.

(** A call into a collaborator. *)
Definition call {A} (f : E -> A * E) : M A :=
  fun w => Done (fst (f (env w))) (mkWorld (mgr w) (snd (f (env w))) (trace w)).

Definition effect (f : E -> E) : M unit :=
  fun w => Done tt (mkWorld (mgr w) (f (env w)) (trace w)).

Definition read {A} (f : E -> A) : M A := fun w => Done (f (env w)) w.

Definition emit (ev : Event) : M unit :=
  fun w => Done tt (mkWorld (mgr w) (env w) (trace w ++ [ev])).

Definition get {A} (f : ReplSetDistLockManager -> A) : M A :=
  fun w => Done (f (mgr w)) w.

Definition modify (f : ReplSetDistLockManager -> ReplSetDistLockManager) : M unit :=
  fun w => Done tt (mkWorld (f (mgr w)) (env w) (trace w)).

(** Taking [_mutex] ([stdx::lock_guard], [stdx::unique_lock]): the critical
    sections the other threads ran meanwhile have taken effect. *)
Definition lock_mutex : M unit :=
  cs <- call others ;;
  modify (apply_concurrents cs).

(** *** Collaborator calls, each recorded in the trace *)

Definition gen : M OID :=
  id <- call OID_gen ;;
  emit (EvOIDGen id) ;;
  ret id.

Definition catalog_grabLock (name : string) (id : OID) (who processID : string)
  (now : Date_t) (why : string) : M (StatusWith LocksType) :=
  r <- call (grabLock name id who processID now why) ;;
  emit (EvGrabLock name id who processID now why (getStatus r)) ;;
  ret r.

Definition catalog_unlock (h : DistLockHandle) : M Status :=
  st <- call (unlock_ h) ;;
  emit (EvUnlock h st) ;;
  ret st.

Definition catalog_getLockByTS (h : DistLockHandle) : M (StatusWith LocksType) :=
  r <- call (getLockByTS h) ;;
  emit (EvGetLockByTS h (getStatus r)) ;;
  ret r.

Definition catalog_ping (processID : string) (now : Date_t) : M Status :=
  st <- call (ping processID now) ;;
  emit (EvPing processID now st) ;;
  ret st.

Definition catalog_stopPing (processID : string) : M Status :=
  st <- call (stopPing processID) ;;
  emit (EvStopPing processID st) ;;
  ret st.

Definition sleep (d : milliseconds) : M unit :=
  effect (sleepFor d) ;;
  emit (EvSleepFor d).

(** *** Timer

    Modelled from the spec: [Timer] (mongo/util/timer.h) is not among the
    sources.  The spec calls it a monotonic elapsed-time timer started once
    at entry; it remembers the instant of its construction (or of its last
    [reset]) and reports the time elapsed since. *)
Record Timer := mkTimer { _old : Z }.

Definition Timer_new : M Timer := now <- read curTimeMillis ;; ret (mkTimer now).

Definition Timer_millis (t : Timer) : M Z :=
  now <- read curTimeMillis ;; ret (now - _old t).

Definition Timer_seconds (t : Timer) : M Z :=
  now <- read curTimeMillis ;; ret (Z.quot (now - _old t) 1000).

(** The world as this thread finds it once it holds the mutex. *)
Definition handover (w : World) : World :=
  mkWorld (apply_concurrents (fst (others (env w))) (mgr w))
          (snd (others (env w))) (trace w).

(** *** The methods *)

(** lines 198-201 *)
Definition queueUnlock (lockSessionID : DistLockHandle) : M unit :=
  lock_mutex ;;
  modify (push_back lockSessionID) ;;
  emit (EvQueueUnlock lockSessionID).

(** lines 86-89 *)
Definition isShutDown : M bool :=
  lock_mutex ;;
  get _isShutDown.

(** lines 61-63.  The new thread is started, then assigned to
    [_execThread]; the assignment destroys the [std::thread] held before,
    and destroying a joinable thread calls [std::terminate]. *)
Definition startUp : M unit :=
  emit EvThreadStart ;;
  old <- get _execThread ;;
  match old with
  | Some t => if joinable t then crash else ret tt
  | None => ret tt
  end ;;
  modify (set_execThread (Some (mkThread true))).

(** [std::thread::join]: throws when the thread is not joinable. *)
Definition join (t : thread) : M unit :=
  if joinable t
  then effect thread_join ;; emit EvThreadJoin
  else crash.

(** lines 65-84 *)
Definition shutDown : M unit :=
  lock_mutex ;;
  modify (set_isShutDown true) ;;
  emit EvNotifyAll ;;
  t <- get _execThread ;;
  match t with
  | Some th =>
      if joinable th
      then join th ;; modify (set_execThread None)
      else ret tt
  | None => ret tt
  end ;;
  processID <- get _processID ;;
  status <- catalog_stopPing processID ;;
  if negb (isOK status)
  then emit (EvWarnStopPing processID status)
  else ret tt.

(** lines 101-113: the loop over the batch; [true] when the task returned
    from inside it. *)
Fixpoint doTask_batch (toUnlockBatch : list DistLockHandle) : M bool :=
  match toUnlockBatch with
  | [] => ret false
  | toUnlock :: rest =>
      unlockStatus <- catalog_unlock toUnlock ;;
      (if negb (isOK unlockStatus)
       then emit (EvWarnUnlock toUnlock unlockStatus) ;; queueUnlock toUnlock
       else ret tt) ;;
      sd <- isShutDown ;;
      if sd then ret true else doTask_batch rest
  end.

(** lines 93-116: one maintenance cycle, the body of the [while];
    [true] when the task returned from inside the batch. *)
Definition doTask_cycle : M bool :=
  processID <- get _processID ;;
  now <- read Date_now ;;
  catalog_ping processID now ;;
  lock_mutex ;;
  toUnlockBatch <- get _unlockList ;;
  modify (set_unlockList []) ;;
  returned <- doTask_batch toUnlockBatch ;;
  if returned then ret true
  else
    lock_mutex ;;
    pingInterval <- get _pingInterval ;;
    effect (cv_wait_for pingInterval) ;;
    emit (EvWaitFor pingInterval) ;;
    lock_mutex ;;
    ret false.

(** lines 91-118 *)
Fixpoint doTask (fuel : nat) : M unit :=
  match fuel with
  | O => out_of_fuel
  | S fuel' =>
      sd <- isShutDown ;;
      if sd then ret tt
      else
        returned <- doTask_cycle ;;
        if returned then ret tt else doTask fuel'
  end.

(** line 172 *)
Definition LockBusy_status (name : string) : Status :=
  mkStatus ErrorCodes.LockBusy ("timed out waiting for " ++ name)%string.

(** lines 128-170: the [while] of [lock]. *)
Fixpoint lock_loop (fuel : nat) (name whyMessage : string)
  (waitFor lockTryInterval : milliseconds) (timer msgTimer : Timer)
  : M (StatusWith ScopedDistLock) :=
  match fuel with
  | O => out_of_fuel
  | S fuel' =>
      elapsed <- Timer_millis timer ;;
      if (waitFor <=? 0) || (elapsed <? waitFor) then
        lockSessionID <- gen ;;
        processID <- get _processID ;;
        threadName <- read getThreadName ;;
        let who := (processID ++ ":" ++ threadName)%string in
        now <- read Date_now ;;
        lockResult <- catalog_grabLock name lockSessionID who processID now whyMessage ;;
        let status := getStatus lockResult in
        if isOK status then
          ret (SW_value (mkScopedDistLock lockSessionID))
        else if Status_neq status ErrorCodes.LockStateChangeFailed then
          queueUnlock lockSessionID ;;
          ret (SW_error status)
        else if waitFor =? 0 then
          ret (SW_error (LockBusy_status name))
        else
          msgSecs <- Timer_seconds msgTimer ;;
          msgTimer' <- (if 10 <? msgSecs
                        then secs <- Timer_seconds timer ;;
                             emit (EvLogWaited secs name whyMessage) ;;
                             Timer_new
                        else ret msgTimer) ;;
          elapsed' <- Timer_millis timer ;;
          let timeRemaining := Z.max 0 (milliseconds_minus waitFor elapsed') in
          sleep (Z.min lockTryInterval timeRemaining) ;;
          lock_loop fuel' name whyMessage waitFor lockTryInterval timer msgTimer'
      else
        ret (SW_error (LockBusy_status name))
  end.

(** lines 120-173 *)
Definition lock (fuel : nat) (name whyMessage : string)
  (waitFor lockTryInterval : milliseconds) : M (StatusWith ScopedDistLock) :=
  timer <- Timer_new ;;
  msgTimer <- Timer_new ;;
  lock_loop fuel name whyMessage waitFor lockTryInterval timer msgTimer.

(** lines 175-181 *)
Definition unlock (lockSessionID : DistLockHandle) : M unit :=
  unlockStatus <- catalog_unlock lockSessionID ;;
  if negb (isOK unlockStatus)
  then queueUnlock lockSessionID
  else ret tt.

(** lines 183-196.  [getValue] on a result that holds no value fails an
    invariant of [StatusWith]. *)
Definition checkStatus (lockHandle : DistLockHandle) : M Status :=
  lockStatus <- catalog_getLockByTS lockHandle ;;
  if negb (SW_isOK lockStatus) then
    ret (getStatus lockStatus)
  else
    match getValue lockStatus with
    | None => crash
    | Some lockDoc =>
        if negb (isValid lockDoc)
        then ret (mkStatus ErrorCodes.LockNotFound "lock owner changed")
        else ret Status_OK
    end.

(** *** One iteration of the acquisition loop, from the world [w] at its head *)

Definition attempt_id (w : World) : OID := fst (OID_gen (env w)).

Definition attempt_who (w : World) : string :=
  (_processID (mgr w) ++ ":" ++ getThreadName (snd (OID_gen (env w))))%string.

Definition attempt_result (name whyMessage : string) (w : World)
  : StatusWith LocksType * E :=
  grabLock name (attempt_id w) (attempt_who w) (_processID (mgr w))
           (Date_now (snd (OID_gen (env w)))) whyMessage (snd (OID_gen (env w))).

Definition attempt_status (name whyMessage : string) (w : World) : Status :=
  getStatus (fst (attempt_result name whyMessage w)).

Definition attempt_events (name whyMessage : string) (w : World) : list Event :=
  [EvOIDGen (attempt_id w);
   EvGrabLock name (attempt_id w) (attempt_who w) (_processID (mgr w))
              (Date_now (snd (OID_gen (env w)))) whyMessage
              (attempt_status name whyMessage w)].

(** The world after the attempt. *)
Definition attempted (name whyMessage : string) (w : World) : World :=
  mkWorld (mgr w) (snd (attempt_result name whyMessage w))
          (trace w ++ attempt_events name whyMessage w).

(** The time on the timer's clock after the attempt. *)
Definition attempt_end (name whyMessage : string) (w : World) : Z :=
  curTimeMillis (snd (attempt_result name whyMessage w)).

Definition retry_log (name whyMessage : string) (timer msgTimer : Timer)
  (w : World) : list Event :=
  let now := attempt_end name whyMessage w in
  if 10 <? Z.quot (now - _old msgTimer) 1000
  then [EvLogWaited (Z.quot (now - _old timer) 1000) name whyMessage]
  else [].

Definition retry_msgTimer (name whyMessage : string) (msgTimer : Timer)
  (w : World) : Timer :=
  let now := attempt_end name whyMessage w in
  if 10 <? Z.quot (now - _old msgTimer) 1000 then mkTimer now else msgTimer.

Definition retry_sleep (name whyMessage : string)
  (waitFor lockTryInterval : milliseconds) (timer : Timer) (w : World)
  : milliseconds :=
  Z.min lockTryInterval
        (Z.max 0 (milliseconds_minus waitFor
                    (attempt_end name whyMessage w - _old timer))).

(** The world at the head of the next iteration, after a clean rejection. *)
Definition retried (name whyMessage : string)
  (waitFor lockTryInterval : milliseconds) (timer msgTimer : Timer)
  (w : World) : World :=
  let d := retry_sleep name whyMessage waitFor lockTryInterval timer w in
  mkWorld (mgr w) (sleepFor d (snd (attempt_result name whyMessage w)))
          (trace w ++ attempt_events name whyMessage w ++
           retry_log name whyMessage timer msgTimer w ++ [EvSleepFor d]).

(** The timer for the progress notes and the world at the head of the
    iteration that follows [n] clean rejections. *)
Fixpoint lock_head (n : nat) (name whyMessage : string)
  (waitFor lockTryInterval : milliseconds) (timer msgTimer : Timer)
  (w : World) : Timer * World :=
  match n with
  | O => (msgTimer, w)
  | S n' =>
      lock_head n' name whyMessage waitFor lockTryInterval timer
                (retry_msgTimer name whyMessage msgTimer w)
                (retried name whyMessage waitFor lockTryInterval timer msgTimer w)
  end.

(** The queue a maintenance cycle started in [w] swaps out: the queue as
    the task finds it under the mutex after its ping. *)
Definition cycle_batch (w : World) : list DistLockHandle :=
  _unlockList
    (apply_concurrents
       (fst (others (snd (ping (_processID (mgr w)) (Date_now (env w)) (env w)))))
       (mgr w)).

(** ** Sequences of calls on one manager *)

Inductive Call :=
| CallStartUp
| CallShutDown
| CallIsShutDown
| CallDoTask (fuel : nat)
| CallLock (fuel : nat) (name whyMessage : string)
           (waitFor lockTryInterval : milliseconds)
| CallUnlock (h : DistLockHandle)
| CallCheckStatus (h : DistLockHandle)
| CallQueueUnlock (h : DistLockHandle).

(** The world a call leaves behind, however it ends. *)
Definition run_call (c : Call) (w : World) : World :=
  match c with
  | CallStartUp => final (startUp w)
  | CallShutDown => final (shutDown w)
  | CallIsShutDown => final (isShutDown w)
  | CallDoTask fuel => final (doTask fuel w)
  | CallLock fuel name why waitFor interval =>
      final (lock fuel name why waitFor interval w)
  | CallUnlock h => final (unlock h w)
  | CallCheckStatus h => final (checkStatus h w)
  | CallQueueUnlock h => final (queueUnlock h w)
  end.

(** A sequence of calls, one after the other; a call that has not returned
    leaves the world where it got to. *)
Definition run_calls (cs : list Call) (w : World) : World :=
  fold_left (fun w c => run_call c w) cs w.

(** ** Contracts of the collaborators *)

(** One transition of the environment: any call into a collaborator. *)
Inductive env_step : E -> E -> Prop :=
| step_grabLock name id who processID now why e :
    env_step e (snd (grabLock name id who processID now why e))
| step_unlock h e : env_step e (snd (unlock_ h e))
| step_getLockByTS h e : env_step e (snd (getLockByTS h e))
| step_ping processID now e : env_step e (snd (ping processID now e))
| step_stopPing processID e : env_step e (snd (stopPing processID e))
| step_OID_gen e : env_step e (snd (OID_gen e))
| step_sleepFor d e : env_step e (sleepFor d e)
| step_cv_wait_for d e : env_step e (cv_wait_for d e)
| step_thread_join e : env_step e (thread_join e)
| step_others e : env_step e (snd (others e)).

(** The timer's clock never runs backwards. *)
Definition clock_monotone : Prop :=
  forall e e', env_step e e' -> curTimeMillis e <= curTimeMillis e'.

(** [sleepFor d] lasts at least [d], and at most [slack] longer. *)
Definition sleep_at_least : Prop :=
  forall d e, curTimeMillis e + d <= curTimeMillis (sleepFor d e).

Definition sleep_at_most (slack : Z) : Prop :=
  forall d e, curTimeMillis (sleepFor d e) <= curTimeMillis e + Z.max 0 d + slack.

(** One attempt (minting the id and the grabLock call) lasts between [lo]
    and [hi] milliseconds. *)
Definition attempt_lasts (lo hi : Z) : Prop :=
  forall name who processID now why e,
    let e' := snd (grabLock name (fst (OID_gen e)) who processID now why
                            (snd (OID_gen e))) in
    curTimeMillis e + lo <= curTimeMillis e' <= curTimeMillis e + hi.

(** The catalog cleanly rejects every grab: the lock is held by another
    session. *)
Definition always_rejects : Prop :=
  forall name id who processID now why e,
    code (getStatus (fst (grabLock name id who processID now why e)))
    = ErrorCodes.LockStateChangeFailed.

(** No other thread swaps the queue out: the other threads are callers of
    the manager, the maintenance task is this one. *)
Definition no_other_task : Prop :=
  forall e, ~ In OtherSwap (fst (others e)).

(** No other thread signals shutdown. *)
Definition no_shutdown_signalled : Prop :=
  forall e, ~ In OtherShutDown (fst (others e)).

(** [OID::gen] never gives the same id twice: [issued e] are the ids given
    out so far. *)
Record unique_ids (issued : E -> OID -> Prop) : Prop := {
  gen_fresh : forall e, ~ issued e (fst (OID_gen e));
  gen_issued : forall e, issued (snd (OID_gen e)) (fst (OID_gen e));
  issued_kept : forall e e' id, env_step e e' -> issued e id -> issued e' id
}.

(** Every catalog unlock succeeds. *)
Definition unlock_always_succeeds : Prop :=
  forall h e, isOK (fst (unlock_ h e)) = true.

(** The other threads leave the queue alone: all they may do meanwhile is
    to call shutDown. *)
Definition others_only_signal : Prop :=
  forall e c, In c (fst (others e)) -> c = OtherShutDown.

(** ** Properties kept by every step *)

(** What the methods other than [shutDown] do to the manager's fields. *)
Inductive mgr_step : ReplSetDistLockManager -> ReplSetDistLockManager -> Prop :=
| mgr_handover e m : mgr_step m (apply_concurrents (fst (others e)) m)
| mgr_push_back h m : mgr_step m (push_back h m)
| mgr_swap m : mgr_step m (set_unlockList [] m)
| mgr_thread t m : mgr_step m (set_execThread t m).

(** A property of the world is stable when no call into a collaborator, no
    trace entry other than a grabLock, and none of these updates breaks it. *)
Record stable (P : World -> Prop) : Prop := {
  st_env : forall m e e' tr,
    env_step e e' -> P (mkWorld m e tr) -> P (mkWorld m e' tr);
  st_emit : forall m e tr ev,
    grab_ids [ev] = [] -> P (mkWorld m e tr) -> P (mkWorld m e (tr ++ [ev]));
  st_mgr : forall m m' e tr,
    mgr_step m m' -> P (mkWorld m e tr) -> P (mkWorld m' e tr)
}.

(** A computation keeps [P] when [P] holds wherever it stops. *)
Definition preserves {A} (P : World -> Prop) (c : M A) : Prop :=
  forall w, P w -> P (final (c w)).

(** ** Bookkeeping *)

(** The ids handed to grabLock so far are pairwise distinct and known to
    the generator. *)
Definition ids_tracked (issued : E -> OID -> Prop) (w : World) : Prop :=
  NoDup (grab_ids (trace w)) /\
  forall id, In id (grab_ids (trace w)) -> issued (env w) id.

End Manager.

Arguments World E : clear implicits.
Arguments Result E A : clear implicits.
Arguments M E A : clear implicits.
Arguments Done {E A} a w.
Arguments OutOfFuel {E A} w.
Arguments Crashed {E A} w.

(** ** A simulated environment

    A catalog and a platform on which the manager can be run.  What they do
    is fixed by a [Config]: the reply to the n-th grabLock and to the n-th
    unlock, what a grabLock call and a sleep take beyond their due, what
    the other threads do at the n-th handover of the mutex.  The state
    counts the calls made so far and keeps the clock and the next object
    id. *)
Module Sim.

Record Doc := mkDoc { doc_valid : bool }.

Record Config := mkConfig {
  grab_reply : nat -> Status;
  grab_latency : Z;
  unlock_reply : nat -> Status;
  lookup_reply : StatusWith Doc;
  stopPing_reply : Status;
  schedule : nat -> list Concurrent;
  oversleep : Z
}.

Record Env := mkEnv {
  clock : Z;
  next_oid : N;
  grabs : nat;
  unlocks : nat;
  handovers : nat
}.

(** Replies read from a list, then a default. *)
Definition script {A} (l : list A) (d : A) : nat -> A := fun n => nth n l d.

Definition advance (d : Z) (e : Env) : Env :=
  mkEnv (clock e + Z.max 0 d) (next_oid e) (grabs e) (unlocks e) (handovers e).

Definition to_reply (st : Status) : StatusWith Doc :=
  if isOK st then SW_value (mkDoc true) else SW_error st.

Section Configured.

Variable cfg : Config.

Definition sim_grabLock (name : string) (id : OID) (who processID : string)
  (now : Date_t) (why : string) (e : Env) : StatusWith Doc * Env :=
  (to_reply (grab_reply cfg (grabs e)),
   mkEnv (clock e + Z.max 0 (grab_latency cfg)) (next_oid e) (S (grabs e))
         (unlocks e) (handovers e)).

Definition sim_unlock (h : DistLockHandle) (e : Env) : Status * Env :=
  (unlock_reply cfg (unlocks e),
   mkEnv (clock e) (next_oid e) (grabs e) (S (unlocks e)) (handovers e)).

Definition sim_gen (e : Env) : OID * Env :=
  (next_oid e,
   mkEnv (clock e) (N.succ (next_oid e)) (grabs e) (unlocks e) (handovers e)).

Definition sim_sleepFor (d : milliseconds) (e : Env) : Env :=
  advance (Z.max 0 d + Z.max 0 (oversleep cfg)) e.

Definition sim_others (e : Env) : list Concurrent * Env :=
  (schedule cfg (handovers e),
   mkEnv (clock e) (next_oid e) (grabs e) (unlocks e) (S (handovers e))).

Definition catalog : DistLockCatalog Env Doc := {|
  grabLock := sim_grabLock;
  unlock_ := sim_unlock;
  getLockByTS := fun _ e => (lookup_reply cfg, e);
  ping := fun _ _ e => (Status_OK, e);
  stopPing := fun _ e => (stopPing_reply cfg, e);
  isValid := doc_valid
|}.

Definition platform : Platform Env := {|
  OID_gen := sim_gen;
  getThreadName := fun _ => "conn1";
  Date_now := clock;
  curTimeMillis := clock;
  sleepFor := sim_sleepFor;
  cv_wait_for := advance;
  thread_join := fun e => e;
  others := sim_others
|}.

End Configured.

Definition rejected : Status :=
  mkStatus ErrorCodes.LockStateChangeFailed "lock is held".

Definition network_error : Status :=
  mkStatus (ErrorCodes.OtherError 89) "network timeout".

Definition not_found : Status :=
  mkStatus ErrorCodes.LockNotFound "no such lock".

(** The ids given out so far are those below the counter. *)
Definition issued (e : Env) (id : OID) : Prop := (id < next_oid e)%N.

Definition env0 : Env := mkEnv 0 1 0 0 0.

Definition manager0 : ReplSetDistLockManager :=
  ReplSetDistLockManager_new "host:27017" 30000.

Definition world0 : World Env := mkWorld manager0 env0 [].

(** Every grab is cleanly rejected after [latency] ms, every unlock fails,
    sleeps last [over] ms too long, no other thread runs. *)
Definition busy (latency over : Z) : Config :=
  mkConfig (fun _ => rejected) latency (fun _ => network_error)
           (SW_error not_found) Status_OK (fun _ => []) over.

(** The second grab fails with a network error. *)
Definition flaky : Config :=
  mkConfig (script [rejected; network_error] rejected) 0 (fun _ => Status_OK)
           (SW_value (mkDoc false)) network_error (fun _ => []) 0.

(** The third grab succeeds. *)
Definition contended : Config :=
  mkConfig (script [rejected; rejected; Status_OK] rejected) 0
           (fun _ => Status_OK) (SW_value (mkDoc true)) Status_OK (fun _ => []) 0.

(** Every unlock fails, and another thread calls shutDown while the task
    retries the first unlock of its batch. *)
Definition stopping : Config :=
  mkConfig (fun _ => rejected) 0 (fun _ => network_error)
           (SW_error not_found) Status_OK
           (script [[]; []; []; [OtherShutDown]] []) 0.

(** Nothing else runs; the unlocks of the first and of the third handle
    fail. *)
Definition mixed : Config :=
  mkConfig (fun _ => rejected) 0
           (script [network_error; Status_OK; network_error] Status_OK)
           (SW_error not_found) Status_OK (fun _ => []) 0.

End Sim.

(** * Properties *)

Section Properties.

Context {E LocksType : Type}.
Context {catalog : DistLockCatalog E LocksType}.
Context {platform : Platform E}.

Implicit Types (w : World E) (m : ReplSetDistLockManager) (h : DistLockHandle).

(** ** Error codes *)

Lemma ErrorCodes_eqb_spec (a b : ErrorCodes.Error) :
  reflect (a = b) (ErrorCodes.eqb a b).
Proof.
  destruct a, b; simpl; try (constructor; congruence).
  destruct (Nat.eqb_spec n n0); constructor; congruence.
Qed.

Lemma ErrorCodes_eqb_eq (a b : ErrorCodes.Error) :
  ErrorCodes.eqb a b = true <-> a = b.
Proof. destruct (ErrorCodes_eqb_spec a b); split; congruence. Qed.

Lemma ErrorCodes_eqb_neq (a b : ErrorCodes.Error) :
  ErrorCodes.eqb a b = false <-> a <> b.
Proof. destruct (ErrorCodes_eqb_spec a b); split; congruence. Qed.

(** ** Durations *)

Lemma wrap64_small (z : Z) :
  -9223372036854775808 <= z < 9223372036854775808 -> wrap64 z = z.
Proof. intros Hz. unfold wrap64. rewrite Z.mod_small; lia. Qed.

(** ** Single steps *)

Lemma lock_mutex_eq w : lock_mutex w = Done tt (handover w).
Proof. reflexivity. Qed.

Lemma queueUnlock_eq h w :
  queueUnlock h w =
  Done tt (mkWorld (push_back h (mgr (handover w))) (env (handover w))
                   (trace w ++ [EvQueueUnlock h])).
Proof. reflexivity. Qed.

Lemma isShutDown_eq w :
  isShutDown w = Done (_isShutDown (mgr (handover w))) (handover w).
Proof. reflexivity. Qed.

Lemma catalog_unlock_eq h w :
  catalog_unlock h w =
  Done (fst (unlock_ h (env w)))
       (mkWorld (mgr w) (snd (unlock_ h (env w)))
                (trace w ++ [EvUnlock h (fst (unlock_ h (env w)))])).
Proof. reflexivity. Qed.

(** ** Other threads leave the rest of the manager alone *)

Lemma apply_concurrents_cons c cs m :
  apply_concurrents (c :: cs) m = apply_concurrents cs (apply_concurrent m c).
Proof. reflexivity. Qed.

Lemma apply_concurrents_execThread cs m :
  _execThread (apply_concurrents cs m) = _execThread m.
Proof.
  revert m. induction cs as [|c cs IH]; intros m; [reflexivity|].
  rewrite apply_concurrents_cons, IH. now destruct c.
Qed.

Lemma apply_concurrents_processID cs m :
  _processID (apply_concurrents cs m) = _processID m.
Proof.
  revert m. induction cs as [|c cs IH]; intros m; [reflexivity|].
  rewrite apply_concurrents_cons, IH. now destruct c.
Qed.

Lemma apply_concurrents_pingInterval cs m :
  _pingInterval (apply_concurrents cs m) = _pingInterval m.
Proof.
  revert m. induction cs as [|c cs IH]; intros m; [reflexivity|].
  rewrite apply_concurrents_cons, IH. now destruct c.
Qed.

Lemma apply_concurrents_shut cs m :
  _isShutDown m = true -> _isShutDown (apply_concurrents cs m) = true.
Proof.
  revert m. induction cs as [|c cs IH]; intros m Hm; [exact Hm|].
  rewrite apply_concurrents_cons. apply IH. now destruct c.
Qed.

Lemma apply_concurrents_not_signalled cs m :
  ~ In OtherShutDown cs ->
  _isShutDown (apply_concurrents cs m) = _isShutDown m.
Proof.
  revert m. induction cs as [|c cs IH]; intros m Hn; [reflexivity|].
  rewrite apply_concurrents_cons, IH by (intros Hin; apply Hn; now right).
  destruct c; try reflexivity. exfalso. apply Hn. now left.
Qed.

Lemma apply_concurrents_count cs m h :
  ~ In OtherSwap cs ->
  (pending h m <= pending h (apply_concurrents cs m))%nat.
Proof.
  unfold pending. revert m. induction cs as [|c cs IH]; intros m Hn; [apply Nat.le_refl|].
  rewrite apply_concurrents_cons.
  etransitivity; [|apply IH; intros Hin; apply Hn; now right].
  destruct c; simpl.
  - apply Nat.le_refl.
  - rewrite count_occ_app. apply Nat.le_add_r.
  - exfalso. apply Hn. now left.
Qed.

(** ** unlock *)

(** C5: [unlock] first attempts the catalog unlock, once and synchronously;
    when that attempt fails, whatever the failure, the handle is pushed
    onto the pending-unlock queue exactly once: the queue is the queue as
    this thread finds it under the mutex with the handle added at its back,
    so the handle is in it once more than before, and nothing else of the
    manager changes; when the attempt succeeds the manager is untouched; in
    both cases [unlock] returns normally, with no status for the caller. *)
Theorem unlock_attempts_then_queues h w :
  exists w' tr,
    unlock h w = Done tt w' /\
    trace w' = trace w ++ EvUnlock h (fst (unlock_ h (env w))) :: tr /\
    unlocked tr = [] /\
    (isOK (fst (unlock_ h (env w))) = true ->
       tr = [] /\ mgr w' = mgr w) /\
    (isOK (fst (unlock_ h (env w))) = false ->
       let found := apply_concurrents
                      (fst (others (snd (unlock_ h (env w))))) (mgr w) in
       tr = [EvQueueUnlock h] /\
       mgr w' = push_back h found /\
       _unlockList (mgr w') = _unlockList found ++ [h] /\
       pending h (mgr w') = S (pending h found) /\
       _isShutDown (mgr w') = _isShutDown found /\
       _execThread (mgr w') = _execThread (mgr w) /\
       _processID (mgr w') = _processID (mgr w) /\
       _pingInterval (mgr w') = _pingInterval (mgr w)).
Proof.
  unfold unlock, bind. rewrite catalog_unlock_eq.
  destruct (isOK (fst (unlock_ h (env w)))) eqn:Hok; simpl.
  - eexists _, []. repeat split; try reflexivity; intros; discriminate.
  - rewrite queueUnlock_eq. eexists _, [EvQueueUnlock h].
    cbn [trace mgr env handover]. rewrite <- app_assoc.
    split; [reflexivity|]. split; [reflexivity|]. split; [reflexivity|].
    split; [discriminate|]. intros _. cbv zeta.
    split; [reflexivity|]. split; [reflexivity|]. split; [reflexivity|].
    split.
    { unfold pending. cbn [mgr push_back set_unlockList _unlockList].
      rewrite count_occ_app. cbn [count_occ].
      destruct (N.eq_dec h h); [|contradiction].
      rewrite Nat.add_1_r. reflexivity. }
    split; [reflexivity|].
    cbn [mgr push_back set_unlockList _execThread _processID _pingInterval].
    now rewrite apply_concurrents_execThread, apply_concurrents_processID,
      apply_concurrents_pingInterval.
Qed.

(** ** checkStatus *)

(** C6: [checkStatus] hands back a failed lookup's status as it is, answers
    LockNotFound ("lock owner changed") when the lookup succeeds with a
    document that is not valid, and answers OK otherwise. *)
Theorem checkStatus_outcomes h w :
  let r := fst (getLockByTS h (env w)) in
  let w' := mkWorld (mgr w) (snd (getLockByTS h (env w)))
                    (trace w ++ [EvGetLockByTS h (getStatus r)]) in
  (isOK (getStatus r) = false -> checkStatus h w = Done (getStatus r) w') /\
  (forall lockDoc, r = SW_value lockDoc -> isValid lockDoc = false ->
     checkStatus h w =
     Done (mkStatus ErrorCodes.LockNotFound "lock owner changed") w') /\
  (forall lockDoc, r = SW_value lockDoc -> isValid lockDoc = true ->
     checkStatus h w = Done Status_OK w').
Proof.
  cbv zeta. unfold checkStatus, bind, catalog_getLockByTS, bind, call, emit, ret.
  cbn [env mgr trace]. unfold SW_isOK.
  repeat split.
  - intros Hfail. rewrite Hfail. reflexivity.
  - intros lockDoc Hr Hinv. rewrite Hr. cbn. rewrite Hinv. reflexivity.
  - intros lockDoc Hr Hv. rewrite Hr. cbn. rewrite Hv. reflexivity.
Qed.

(** ** shutDown *)

Ltac exec :=
  cbn [bind ret call effect read emit get modify crash out_of_fuel lock_mutex
       join gen sleep catalog_grabLock catalog_unlock catalog_getLockByTS
       catalog_ping catalog_stopPing Timer_new Timer_millis Timer_seconds
       queueUnlock isShutDown
       mgr env trace fst snd joinable joined _old negb
       _processID _pingInterval _execThread _unlockList _isShutDown
       set_isShutDown set_execThread set_unlockList push_back];
  unfold ret, emit, crash, out_of_fuel;
  cbn [mgr env trace].

Lemma thread_events_app tr1 tr2 :
  thread_events (tr1 ++ tr2) = thread_events tr1 ++ thread_events tr2.
Proof.
  induction tr1 as [|ev tr1 IH]; [reflexivity|].
  destruct ev; simpl; rewrite ?IH; reflexivity.
Qed.

Lemma shutDown_once w :
  exists w' tr st,
    shutDown w = Done tt w' /\
    trace w' = trace w ++ tr ++ stopPing_events (_processID (mgr w)) st /\
    thread_events tr =
      match _execThread (mgr w) with
      | Some th => if joinable th then [EvThreadJoin] else []
      | None => []
      end /\
    _isShutDown (mgr w') = true /\
    _execThread (mgr w') = joined (_execThread (mgr w)) /\
    _processID (mgr w') = _processID (mgr w).
Proof.
  destruct w as [m e tr]. unfold shutDown, stopPing_events.
  exec. rewrite apply_concurrents_execThread.
  destruct (_execThread m) as [[[|]]|] eqn:Hth; exec;
    rewrite !apply_concurrents_processID;
    destruct (isOK _) eqn:Hok; exec.
  all: rewrite <- ?app_assoc; cbn [app].
  all: match goal with
       | Hok : isOK (fst (stopPing ?p ?e')) = _ |- context [EvThreadJoin] =>
           eexists _, [EvNotifyAll; EvThreadJoin], (fst (stopPing p e'))
       | Hok : isOK (fst (stopPing ?p ?e')) = _ |- _ =>
           eexists _, [EvNotifyAll], (fst (stopPing p e'))
       end.
  all: rewrite Hok; (split; [reflexivity|]); exec.
  all: rewrite ?apply_concurrents_execThread, ?apply_concurrents_processID, ?Hth.
  all: repeat split.
Qed.

(** ** Properties kept by every step *)

Section Stable.

Variable P : World E -> Prop.
Hypothesis HP : stable P.

Lemma preserves_bind {A B} (c : M E A) (k : A -> M E B) :
  preserves P c -> (forall a, preserves P (k a)) -> preserves P (bind c k).
Proof.
  intros Hc Hk w Hw. unfold bind. specialize (Hc w Hw).
  destruct (c w) as [a w'|w'|w']; simpl in *; auto. now apply Hk.
Qed.

Lemma preserves_ret {A} (a : A) : preserves P (ret a).
Proof. intros w Hw. exact Hw. Qed.

Lemma preserves_crash {A} : preserves P (@crash E A).
Proof. intros w Hw. exact Hw. Qed.

Lemma preserves_out_of_fuel {A} : preserves P (@out_of_fuel E A).
Proof. intros w Hw. exact Hw. Qed.

Lemma preserves_read {A} (f : E -> A) : preserves P (read f).
Proof. intros w Hw. exact Hw. Qed.

Lemma preserves_get {A} (f : ReplSetDistLockManager -> A) : preserves P (get f).
Proof. intros w Hw. exact Hw. Qed.

Lemma preserves_call {A} (f : E -> A * E) :
  (forall e, env_step e (snd (f e))) -> preserves P (call f).
Proof.
  intros Hf [m e tr] Hw. simpl. eapply (st_env P HP); eauto.
Qed.

Lemma preserves_effect (f : E -> E) :
  (forall e, env_step e (f e)) -> preserves P (effect f).
Proof.
  intros Hf [m e tr] Hw. simpl. eapply (st_env P HP); eauto.
Qed.

Lemma preserves_emit ev : grab_ids [ev] = [] -> preserves P (emit ev).
Proof. intros Hev [m e tr] Hw. simpl. now apply (st_emit P HP). Qed.

Lemma preserves_modify f :
  (forall m, mgr_step m (f m)) -> preserves P (modify f).
Proof. intros Hf [m e tr] Hw. simpl. eapply (st_mgr P HP); eauto. Qed.

Lemma preserves_lock_mutex : preserves P lock_mutex.
Proof.
  intros [m e tr] Hw. simpl.
  eapply (st_mgr P HP); [apply mgr_handover|].
  eapply (st_env P HP); [apply step_others|]. exact Hw.
Qed.

Ltac preserve :=
  repeat first
    [ apply preserves_ret | apply preserves_crash | apply preserves_out_of_fuel
    | apply preserves_read | apply preserves_get | apply preserves_lock_mutex
    | apply preserves_emit; reflexivity
    | apply preserves_call; intros; constructor
    | apply preserves_effect; intros; constructor
    | apply preserves_modify; intros; constructor
    | apply preserves_bind; [|intros]
    | match goal with
      | |- preserves _ (if ?b then _ else _) => destruct b
      | |- preserves _ (match ?x with _ => _ end) => destruct x
      end ].

Lemma preserves_gen : preserves P gen.
Proof. unfold gen. preserve. Qed.

Lemma preserves_sleep d : preserves P (sleep d).
Proof. unfold sleep. preserve. Qed.

Lemma preserves_queueUnlock h : preserves P (queueUnlock h).
Proof. unfold queueUnlock. preserve. Qed.

Lemma preserves_isShutDown : preserves P isShutDown.
Proof. unfold isShutDown. preserve. Qed.

Lemma preserves_startUp : preserves P startUp.
Proof. unfold startUp. preserve. Qed.

Lemma preserves_unlock h : preserves P (unlock h).
Proof. unfold unlock, catalog_unlock. preserve. Qed.

Lemma preserves_checkStatus h : preserves P (checkStatus h).
Proof. unfold checkStatus, catalog_getLockByTS. preserve. Qed.

Lemma preserves_doTask_batch batch : preserves P (doTask_batch batch).
Proof.
  induction batch as [|h rest IH]; simpl; unfold catalog_unlock; preserve;
    auto using preserves_queueUnlock, preserves_isShutDown.
Qed.

Lemma preserves_doTask_cycle : preserves P doTask_cycle.
Proof.
  unfold doTask_cycle, catalog_ping. preserve; auto using preserves_doTask_batch.
Qed.

Lemma preserves_doTask fuel : preserves P (doTask fuel).
Proof.
  induction fuel as [|fuel IH]; simpl; preserve;
    auto using preserves_isShutDown, preserves_doTask_cycle, preserves_doTask_batch.
Qed.

(** [shutDown] also sets the flag, [lock] also calls grabLock. *)
Lemma preserves_shutDown :
  (forall m e tr, P (mkWorld m e tr) -> P (mkWorld (set_isShutDown true m) e tr)) ->
  preserves P shutDown.
Proof.
  intros Hset. unfold shutDown, join, catalog_stopPing. preserve.
  intros [m e tr] Hw. simpl. now apply Hset.
Qed.

Lemma preserves_lock_loop fuel name why waitFor interval timer msgTimer :
  (forall m e tr name id who pid now why st,
     P (mkWorld m e tr) ->
     P (mkWorld m e (tr ++ [EvGrabLock name id who pid now why st]))) ->
  preserves P (lock_loop fuel name why waitFor interval timer msgTimer).
Proof.
  intros Hgrab. revert timer msgTimer.
  induction fuel as [|fuel IH]; intros timer msgTimer; simpl;
    unfold Timer_millis, Timer_seconds, Timer_new, catalog_grabLock; preserve;
    auto using preserves_gen, preserves_queueUnlock, preserves_sleep.
  all: intros [m e tr] Hw; simpl; now apply Hgrab.
Qed.

End Stable.

(** ** The acquisition loop, one iteration at a time *)

Lemma lock_loop_S fuel name why waitFor interval timer msgTimer w :
  lock_loop (S fuel) name why waitFor interval timer msgTimer w =
  if (waitFor <=? 0) || (curTimeMillis (env w) - _old timer <? waitFor) then
    let st := attempt_status name why w in
    let w1 := attempted name why w in
    if isOK st then
      Done (SW_value (mkScopedDistLock (attempt_id w))) w1
    else if Status_neq st ErrorCodes.LockStateChangeFailed then
      Done (SW_error st)
           (mkWorld (push_back (attempt_id w) (mgr (handover w1)))
                    (env (handover w1))
                    (trace w1 ++ [EvQueueUnlock (attempt_id w)]))
    else if waitFor =? 0 then
      Done (SW_error (LockBusy_status name)) w1
    else
      lock_loop fuel name why waitFor interval timer
                (retry_msgTimer name why msgTimer w)
                (retried name why waitFor interval timer msgTimer w)
  else Done (SW_error (LockBusy_status name)) w.
Proof.
  cbv zeta. destruct w as [m e tr].
  cbn [lock_loop bind Timer_millis read ret env mgr trace].
  destruct (_ || _); [|reflexivity].
  unfold attempt_status, attempted, retried, retry_msgTimer, retry_log, retry_sleep,
    attempt_events, attempt_status, attempt_end, attempt_result, attempt_who, attempt_id.
  cbn [bind ret call effect read emit get modify gen catalog_grabLock
       mgr env trace fst snd].
  destruct (isOK _); [rewrite <- app_assoc; reflexivity|].
  destruct (Status_neq _ _).
  { cbn [queueUnlock bind ret call effect read emit get modify lock_mutex
         mgr env trace fst snd handover]. rewrite <- !app_assoc. reflexivity. }
  destruct (waitFor =? 0); [rewrite <- app_assoc; reflexivity|].
  cbn [bind ret read Timer_seconds Timer_millis Timer_new mgr env trace _old].
  destruct (10 <? _);
    cbn [bind ret call effect read emit get modify sleep Timer_seconds Timer_new
         Timer_millis mgr env trace fst snd _old];
    rewrite <- !app_assoc; reflexivity.
Qed.

Lemma joined_joined t : joined (joined t) = joined t.
Proof. destruct t as [[[|]]|]; reflexivity. Qed.

Lemma joined_not_joinable t :
  match joined t with
  | Some th => if joinable th then [EvThreadJoin] else []
  | None => []
  end = [].
Proof. destruct t as [[[|]]|]; reflexivity. Qed.

(** C7: whatever the state of the manager, [shutDown] returns normally.  It
    joins the background thread only when the task handle is set and
    joinable (so nothing is joined when [startUp] was never called), and
    then resets the handle.  Called a second time it returns normally again
    and does nothing to the background thread.  Each call ends with the
    stop-ping; when that fails a warning is logged, and the call still
    returns normally, with nothing for the caller. *)
Theorem shutDown_safe_and_repeatable w :
  exists w1 w2 tr1 tr2 st1 st2,
    shutDown w = Done tt w1 /\
    trace w1 = trace w ++ tr1 ++ stopPing_events (_processID (mgr w)) st1 /\
    thread_events tr1 =
      match _execThread (mgr w) with
      | Some th => if joinable th then [EvThreadJoin] else []
      | None => []
      end /\
    _execThread (mgr w1) = joined (_execThread (mgr w)) /\
    _isShutDown (mgr w1) = true /\
    shutDown w1 = Done tt w2 /\
    trace w2 = trace w1 ++ tr2 ++ stopPing_events (_processID (mgr w)) st2 /\
    thread_events tr2 = [] /\
    _execThread (mgr w2) = _execThread (mgr w1) /\
    _isShutDown (mgr w2) = true.
Proof.
  destruct (shutDown_once w) as (w1 & tr1 & st1 & H1 & Ht1 & Hth1 & Hs1 & He1 & Hp1).
  destruct (shutDown_once w1) as (w2 & tr2 & st2 & H2 & Ht2 & Hth2 & Hs2 & He2 & Hp2).
  exists w1, w2, tr1, tr2, st1, st2.
  rewrite Hp1 in Ht2. rewrite He1 in Hth2, He2.
  rewrite joined_not_joinable in Hth2. rewrite joined_joined in He2.
  rewrite He1. repeat split; assumption.
Qed.

(** ** The shutdown flag *)

Lemma shut_stable : stable (fun w => _isShutDown (mgr w) = true).
Proof.
  split; cbn [mgr]; auto.
  intros m m' _ _ Hstep Hm. destruct Hstep; cbn; auto.
  now apply apply_concurrents_shut.
Qed.

Lemma flag_stable (b : bool) :
  no_shutdown_signalled -> stable (fun w => _isShutDown (mgr w) = b).
Proof.
  intros Hno. split; cbn [mgr]; auto.
  intros m m' _ _ Hstep Hm. destruct Hstep; cbn; auto.
  now rewrite apply_concurrents_not_signalled by apply Hno.
Qed.

Lemma preserves_lock P fuel name why waitFor interval :
  stable P ->
  (forall m e tr name id who pid now why st,
     P (mkWorld m e tr) ->
     P (mkWorld m e (tr ++ [EvGrabLock name id who pid now why st]))) ->
  preserves P (lock fuel name why waitFor interval).
Proof.
  intros HP Hgrab [m e tr] Hw. unfold lock, Timer_new.
  cbn [bind read ret env]. now apply preserves_lock_loop.
Qed.

Lemma run_call_shut c w :
  _isShutDown (mgr w) = true -> _isShutDown (mgr (run_call c w)) = true.
Proof.
  pose proof shut_stable as HP. intros Hw.
  destruct c; cbn [run_call].
  - now apply (preserves_startUp _ HP).
  - apply (preserves_shutDown _ HP); auto.
  - now apply (preserves_isShutDown _ HP).
  - now apply (preserves_doTask _ HP).
  - apply (preserves_lock _ fuel name whyMessage waitFor lockTryInterval HP); auto.
  - now apply (preserves_unlock _ HP).
  - now apply (preserves_checkStatus _ HP).
  - now apply (preserves_queueUnlock _ HP).
Qed.

Lemma run_calls_shut cs w :
  _isShutDown (mgr w) = true -> _isShutDown (mgr (run_calls cs w)) = true.
Proof.
  revert w. induction cs as [|c cs IH]; intros w Hw; [exact Hw|].
  apply IH. now apply run_call_shut.
Qed.

Lemma run_call_flag c w :
  no_shutdown_signalled -> c <> CallShutDown ->
  _isShutDown (mgr (run_call c w)) = _isShutDown (mgr w).
Proof.
  intros Hno Hc.
  pose proof (flag_stable (_isShutDown (mgr w)) Hno) as HP.
  destruct c; cbn [run_call]; try congruence.
  - now apply (preserves_startUp _ HP).
  - now apply (preserves_isShutDown _ HP).
  - now apply (preserves_doTask _ HP).
  - apply (preserves_lock _ fuel name whyMessage waitFor lockTryInterval HP); auto.
  - now apply (preserves_unlock _ HP).
  - now apply (preserves_checkStatus _ HP).
  - now apply (preserves_queueUnlock _ HP).
Qed.

(** C8: the shutdown flag starts false; [shutDown] sets it; no other method
    changes it, unless another thread runs [shutDown] meanwhile; and it is
    never cleared: over any sequence of calls on the manager, with the other
    threads doing what they like, a flag that is set stays set, so once
    [isShutDown] has returned true it returns true ever after. *)
Theorem shutdown_flag_monotone :
  (forall processID pingInterval,
     _isShutDown (ReplSetDistLockManager_new processID pingInterval) = false) /\
  (forall w, _isShutDown (mgr (run_call CallShutDown w)) = true) /\
  (forall c w,
     no_shutdown_signalled -> c <> CallShutDown ->
     _isShutDown (mgr (run_call c w)) = _isShutDown (mgr w)) /\
  (forall cs w, _isShutDown (mgr w) = true ->
     _isShutDown (mgr (run_calls cs w)) = true) /\
  (forall cs w w1, isShutDown w = Done true w1 ->
     exists w2, isShutDown (run_calls cs w1) = Done true w2).
Proof.
  repeat split.
  - intros w. cbn [run_call].
    destruct (shutDown_once w) as (w1 & tr & st & H1 & _ & _ & Hs & _).
    rewrite H1. exact Hs.
  - intros c w. apply run_call_flag.
  - intros cs w. apply run_calls_shut.
  - intros cs w w1 Hret. rewrite isShutDown_eq in Hret.
    injection Hret as Hflag Hw1. subst w1.
    rewrite isShutDown_eq. eexists. f_equal.
    cbn [handover mgr]. apply apply_concurrents_shut.
    now apply run_calls_shut.
Qed.

(** ** Traces only grow *)

Lemma extends_stable (tr0 : list Event) :
  stable (fun w => exists tr, trace w = tr0 ++ tr).
Proof.
  split; cbn [trace]; auto.
  intros m e tr ev _ [tr' Htr]. cbn [trace] in Htr. rewrite Htr.
  exists (tr' ++ [ev]). now rewrite app_assoc.
Qed.

Lemma lock_loop_extends fuel name why waitFor interval timer msgTimer w :
  exists tr,
    trace (final (lock_loop fuel name why waitFor interval timer msgTimer w))
    = trace w ++ tr.
Proof.
  apply (preserves_lock_loop _ (extends_stable (trace w))).
  - intros m e tr ? ? ? ? ? ? ? [tr' Htr]. cbn [trace] in *. rewrite Htr.
    eexists. now rewrite <- app_assoc.
  - exists []. now rewrite app_nil_r.
Qed.

(** Where an event sits in a trace that starts with events unlike it. *)
Lemma split_after (ev : Event) (front pre post rest : list Event) :
  ~ In ev front ->
  pre ++ ev :: post = front ++ rest ->
  exists pre', pre = front ++ pre' /\ rest = pre' ++ ev :: post.
Proof.
  revert pre. induction front as [|x front IH]; intros pre Hnin Heq.
  - exists pre. split; [reflexivity|]. symmetry. exact Heq.
  - destruct pre as [|y pre]; simpl in Heq; injection Heq as Hx Heq.
    + exfalso. apply Hnin. left. now symmetry.
    + subst y. destruct (IH pre) as (pre' & -> & ->); auto.
      * intros Hin. apply Hnin. now right.
      * exists pre'. split; reflexivity.
Qed.

Lemma lock_eq fuel name why waitFor interval w :
  lock fuel name why waitFor interval w =
  lock_loop fuel name why waitFor interval
            (mkTimer (curTimeMillis (env w))) (mkTimer (curTimeMillis (env w))) w.
Proof. reflexivity. Qed.

Lemma mgr_retried name why waitFor interval timer msgTimer w :
  mgr (retried name why waitFor interval timer msgTimer w) = mgr w.
Proof. reflexivity. Qed.

Lemma trace_retried name why waitFor interval timer msgTimer w :
  trace (retried name why waitFor interval timer msgTimer w) =
  trace w ++ attempt_events name why w ++ retry_log name why timer msgTimer w ++
  [EvSleepFor (retry_sleep name why waitFor interval timer w)].
Proof. reflexivity. Qed.

Lemma Status_neq_false st c : Status_neq st c = false -> code st = c.
Proof.
  unfold Status_neq. intros H. apply negb_false_iff in H.
  now apply ErrorCodes_eqb_eq.
Qed.

Lemma Status_neq_true st c : Status_neq st c = true -> code st <> c.
Proof.
  unfold Status_neq. intros H. apply negb_true_iff in H.
  now apply ErrorCodes_eqb_neq.
Qed.

(** ** Ambiguous failures *)

Lemma grab_ids_app tr1 tr2 : grab_ids (tr1 ++ tr2) = grab_ids tr1 ++ grab_ids tr2.
Proof.
  induction tr1 as [|ev tr1 IH]; [reflexivity|].
  destruct ev; simpl; rewrite ?IH; reflexivity.
Qed.

Lemma sleeps_app tr1 tr2 : sleeps (tr1 ++ tr2) = sleeps tr1 ++ sleeps tr2.
Proof.
  induction tr1 as [|ev tr1 IH]; [reflexivity|].
  destruct ev; simpl; rewrite ?IH; reflexivity.
Qed.

Lemma grab_ids_retry_log name why timer msgTimer w :
  grab_ids (retry_log name why timer msgTimer w) = [].
Proof. unfold retry_log. cbv zeta. now destruct (10 <? _). Qed.

Lemma sleeps_retry_log name why timer msgTimer w :
  sleeps (retry_log name why timer msgTimer w) = [].
Proof. unfold retry_log. cbv zeta. now destruct (10 <? _). Qed.

Lemma lock_head_S n name why waitFor interval timer msgTimer w :
  lock_head (S n) name why waitFor interval timer msgTimer w
  = lock_head n name why waitFor interval timer
              (retry_msgTimer name why msgTimer w)
              (retried name why waitFor interval timer msgTimer w).
Proof. reflexivity. Qed.

(** What the ambiguous failure of the attempt made from [w0] leaves, in a
    call started with the manager [m]. *)
Lemma queued_after_attempt name why w0 m w' :
  mgr w0 = m ->
  w' = mkWorld (push_back (attempt_id w0) (mgr (handover (attempted name why w0))))
               (env (handover (attempted name why w0)))
               (trace (attempted name why w0) ++ [EvQueueUnlock (attempt_id w0)]) ->
  let found := apply_concurrents
                 (fst (others (env (attempted name why w0)))) m in
  _unlockList (mgr w') = _unlockList found ++ [attempt_id w0] /\
  _isShutDown (mgr w') = _isShutDown found /\
  _execThread (mgr w') = _execThread m /\
  _processID (mgr w') = _processID m /\
  _pingInterval (mgr w') = _pingInterval m /\
  env w' = snd (others (env (attempted name why w0))).
Proof.
  intros <- ->. cbv zeta.
  cbn [mgr env handover attempted push_back set_unlockList _unlockList
       _isShutDown _execThread _processID _pingInterval].
  rewrite apply_concurrents_execThread, apply_concurrents_processID,
    apply_concurrents_pingInterval.
  repeat split.
Qed.

Lemma lock_loop_ambiguous fuel name why waitFor interval :
  forall timer msgTimer w pre post n id who pid now y st,
  trace (final (lock_loop fuel name why waitFor interval timer msgTimer w))
  = trace w ++ pre ++ EvGrabLock n id who pid now y st :: post ->
  isOK st = false ->
  code st <> ErrorCodes.LockStateChangeFailed ->
  let w0 := snd (lock_head (List.length (grab_ids pre)) name why waitFor interval
                           timer msgTimer w) in
  let found := apply_concurrents
                 (fst (others (env (attempted name why w0)))) (mgr w) in
  exists w',
    lock_loop fuel name why waitFor interval timer msgTimer w
    = Done (SW_error st) w' /\
    post = [EvQueueUnlock id] /\
    id = attempt_id w0 /\
    st = attempt_status name why w0 /\
    _unlockList (mgr w') = _unlockList found ++ [id] /\
    _isShutDown (mgr w') = _isShutDown found /\
    _execThread (mgr w') = _execThread (mgr w) /\
    _processID (mgr w') = _processID (mgr w) /\
    _pingInterval (mgr w') = _pingInterval (mgr w) /\
    env w' = snd (others (env (attempted name why w0))).
Proof.
  induction fuel as [|fuel IH]; intros timer msgTimer w pre post n id who pid now y st
    Htr Hfail Hcode; cbv zeta.
  - cbn in Htr. rewrite <- (app_nil_r (trace w)) in Htr at 1.
    apply app_inv_head in Htr. now destruct pre.
  - rewrite lock_loop_S in Htr |- *. cbv zeta in *.
    destruct (_ || _).
    2:{ cbn in Htr. rewrite <- (app_nil_r (trace w)) in Htr at 1.
        apply app_inv_head in Htr. now destruct pre. }
    destruct (isOK (attempt_status name why w)) eqn:Hok.
    { cbn in Htr. apply app_inv_head in Htr.
      destruct pre as [|? [|? [|? pre]]]; cbn in Htr; try discriminate.
      injection Htr as _ _ _ _ _ _ _ Hst _. congruence. }
    destruct (Status_neq _ _) eqn:Hneq.
    { cbn [final trace attempted] in Htr. rewrite <- app_assoc in Htr.
      apply app_inv_head in Htr.
      destruct pre as [|? [|? [|? [|? pre]]]]; cbn in Htr; try discriminate.
      injection Htr as Hgen _ Hid _ _ _ _ Hst Hpost. subst.
      cbn [grab_ids List.length lock_head snd].
      eexists. split; [reflexivity|]. split; [reflexivity|].
      split; [reflexivity|]. split; [reflexivity|].
      apply (queued_after_attempt name why w (mgr w)); reflexivity. }
    apply Status_neq_false in Hneq.
    destruct (waitFor =? 0).
    { cbn in Htr. apply app_inv_head in Htr.
      destruct pre as [|? [|? [|? pre]]]; cbn in Htr; try discriminate.
      injection Htr as _ _ _ _ _ _ _ Hst _. congruence. }
    destruct (lock_loop_extends fuel name why waitFor interval timer
                (retry_msgTimer name why msgTimer w)
                (retried name why waitFor interval timer msgTimer w)) as [tr' Hext].
    rewrite Hext, trace_retried, <- app_assoc in Htr. apply app_inv_head in Htr.
    rewrite !app_assoc in Htr. symmetry in Htr. apply split_after in Htr.
    + destruct Htr as (pre' & -> & ->).
      destruct (IH timer (retry_msgTimer name why msgTimer w)
                  (retried name why waitFor interval timer msgTimer w)
                  pre' post n id who pid now y st) as (w' & Hrun & Hrest); auto.
      exists w'. split; [exact Hrun|].
      assert (Hlen : grab_ids (((attempt_events name why w ++
                                 retry_log name why timer msgTimer w) ++
                                [EvSleepFor (retry_sleep name why waitFor interval
                                                         timer w)]) ++ pre')
                     = attempt_id w :: grab_ids pre').
      { rewrite !grab_ids_app, grab_ids_retry_log. reflexivity. }
      rewrite Hlen. cbn [List.length]. rewrite lock_head_S. exact Hrest.
    + unfold attempt_events, retry_log. intros Hin.
      destruct (10 <? _); cbn in Hin;
        repeat (destruct Hin as [Hin|Hin]; try discriminate); try contradiction;
        injection Hin as _ _ _ _ _ _ Hst; congruence.
Qed.

(** C1: take any call of [lock] and any grabLock attempt it makes whose
    status is a failure other than LockStateChangeFailed.  Then the call
    returns that very status, and the only thing it does after the attempt
    is to push the attempt's session id onto the pending-unlock queue,
    once; in particular it makes no further grab attempt.  The queue it
    leaves is the queue as found under the mutex after that attempt (the
    manager of the start of the call with what the other threads did
    meanwhile) with the session id added at its back; the call changes
    nothing else of the manager. *)
Theorem lock_ambiguous_failure fuel name why waitFor interval w
  pre post n id who pid now y st :
  trace (final (lock fuel name why waitFor interval w))
  = trace w ++ pre ++ EvGrabLock n id who pid now y st :: post ->
  isOK st = false ->
  code st <> ErrorCodes.LockStateChangeFailed ->
  let w0 := snd (lock_head (List.length (grab_ids pre)) name why waitFor interval
                           (mkTimer (curTimeMillis (env w)))
                           (mkTimer (curTimeMillis (env w))) w) in
  let found := apply_concurrents
                 (fst (others (env (attempted name why w0)))) (mgr w) in
  exists w',
    lock fuel name why waitFor interval w = Done (SW_error st) w' /\
    post = [EvQueueUnlock id] /\
    grab_ids post = [] /\
    id = attempt_id w0 /\
    st = attempt_status name why w0 /\
    _unlockList (mgr w') = _unlockList found ++ [id] /\
    pending id (mgr w') = S (pending id found) /\
    _isShutDown (mgr w') = _isShutDown found /\
    _execThread (mgr w') = _execThread (mgr w) /\
    _processID (mgr w') = _processID (mgr w) /\
    _pingInterval (mgr w') = _pingInterval (mgr w) /\
    env w' = snd (others (env (attempted name why w0))).
Proof.
  rewrite lock_eq. intros Htr Hfail Hcode. cbv zeta.
  destruct (lock_loop_ambiguous _ _ _ _ _ _ _ _ _ _ _ _ _ _ _ _ _ Htr Hfail Hcode)
    as (w' & Hrun & -> & Hid & Hst & Hlist & Hrest).
  exists w'. split; [exact Hrun|]. split; [reflexivity|]. split; [reflexivity|].
  split; [exact Hid|]. split; [exact Hst|]. split; [exact Hlist|].
  split; [|exact Hrest].
  unfold pending. rewrite Hlist, count_occ_app. cbn [count_occ].
  destruct (N.eq_dec id id); [|contradiction].
  rewrite Nat.add_1_r. reflexivity.
Qed.

(** C3: with [waitFor] equal to zero [lock] returns after exactly one grab
    attempt and without sleeping: the handle minted for the attempt when
    the grab succeeds, LockBusy when it is cleanly rejected
    (LockStateChangeFailed), and the failure status itself otherwise. *)
Theorem lock_no_wait fuel name why interval w :
  exists r w' q,
    lock (S fuel) name why 0 interval w = Done r w' /\
    trace w' = trace w ++ attempt_events name why w ++ q /\
    grab_ids (attempt_events name why w ++ q) = [attempt_id w] /\
    sleeps (attempt_events name why w ++ q) = [] /\
    (isOK (attempt_status name why w) = true ->
       r = SW_value (mkScopedDistLock (attempt_id w))) /\
    (isOK (attempt_status name why w) = false ->
     code (attempt_status name why w) = ErrorCodes.LockStateChangeFailed ->
       r = SW_error (mkStatus ErrorCodes.LockBusy
                              ("timed out waiting for " ++ name)%string)) /\
    (isOK (attempt_status name why w) = false ->
     code (attempt_status name why w) <> ErrorCodes.LockStateChangeFailed ->
       r = SW_error (attempt_status name why w)).
Proof.
  rewrite lock_eq, lock_loop_S. cbv zeta. cbn [Z.leb Z.eqb orb Z.compare].
  destruct (isOK (attempt_status name why w)) eqn:Hok.
  { eexists _, _, []. rewrite app_nil_r. repeat split; try reflexivity; discriminate. }
  destruct (Status_neq _ _) eqn:Hneq.
  { apply Status_neq_true in Hneq.
    eexists _, _, [EvQueueUnlock (attempt_id w)].
    cbn [trace attempted]. rewrite <- app_assoc.
    repeat split; try reflexivity; try discriminate. intros _ Hc. contradiction. }
  apply Status_neq_false in Hneq.
  eexists _, _, []. rewrite app_nil_r.
  repeat split; try reflexivity; try discriminate. intros _ Hc. contradiction.
Qed.

(** ** A catalog that always rejects *)

Section Rejecting.

Hypothesis Hrej : always_rejects.

Lemma rejected_code name why w :
  code (attempt_status name why w) = ErrorCodes.LockStateChangeFailed.
Proof. apply Hrej. Qed.

Lemma rejected_not_OK name why w : isOK (attempt_status name why w) = false.
Proof. unfold isOK. now rewrite rejected_code. Qed.

Lemma rejected_not_ambiguous name why w :
  Status_neq (attempt_status name why w) ErrorCodes.LockStateChangeFailed = false.
Proof. unfold Status_neq. now rewrite rejected_code. Qed.

(** One iteration against such a catalog. *)
Lemma lock_loop_rejected fuel name why waitFor interval timer msgTimer w :
  lock_loop (S fuel) name why waitFor interval timer msgTimer w =
  if (waitFor <=? 0) || (curTimeMillis (env w) - _old timer <? waitFor) then
    if waitFor =? 0 then
      Done (SW_error (LockBusy_status name)) (attempted name why w)
    else
      lock_loop fuel name why waitFor interval timer
                (retry_msgTimer name why msgTimer w)
                (retried name why waitFor interval timer msgTimer w)
  else Done (SW_error (LockBusy_status name)) w.
Proof.
  rewrite lock_loop_S. cbv zeta.
  now rewrite rejected_not_OK, rejected_not_ambiguous.
Qed.

Hypothesis Hmono : clock_monotone.

Lemma attempt_end_ge name why w :
  curTimeMillis (env w) <= attempt_end name why w.
Proof.
  unfold attempt_end, attempt_result.
  etransitivity; [apply Hmono, step_OID_gen|]. apply Hmono, step_grabLock.
Qed.

Lemma retried_ge name why waitFor interval timer msgTimer w :
  attempt_end name why w
  <= curTimeMillis (env (retried name why waitFor interval timer msgTimer w)).
Proof. cbn. apply Hmono, step_sleepFor. Qed.

(** *** A negative wait: the loop never ends and never pauses *)

Lemma lock_loop_negative name why waitFor interval :
  waitFor < 0 ->
  forall fuel timer msgTimer w,
    _old timer <= curTimeMillis (env w) ->
    (forall k, (k < fuel)%nat ->
       attempt_end name why
         (snd (lock_head k name why waitFor interval timer msgTimer w))
       - _old timer <= waitFor + 9223372036854775808) ->
    exists w' tr,
      lock_loop fuel name why waitFor interval timer msgTimer w = OutOfFuel w' /\
      trace w' = trace w ++ tr /\
      List.length (grab_ids tr) = fuel /\
      sleeps tr = repeat (Z.min interval 0) fuel /\
      mgr w' = mgr w.
Proof.
  intros Hneg. induction fuel as [|fuel IH]; intros timer msgTimer w Hold Hfits.
  - exists w, []. rewrite app_nil_r. repeat split.
  - rewrite lock_loop_rejected.
    replace (waitFor <=? 0) with true by (symmetry; apply Z.leb_le; lia).
    replace (waitFor =? 0) with false by (symmetry; apply Z.eqb_neq; lia).
    cbn [orb].
    pose proof (attempt_end_ge name why w) as Hend.
    pose proof (retried_ge name why waitFor interval timer msgTimer w) as Hret.
    pose proof (Hfits O (Nat.lt_0_succ fuel)) as Hfit0. cbn [lock_head snd] in Hfit0.
    destruct (IH timer (retry_msgTimer name why msgTimer w)
                (retried name why waitFor interval timer msgTimer w))
      as (w' & tr & Hrun & Htr & Hgrabs & Hsleeps & Hmgr); [lia| |].
    { intros k Hk. apply (Hfits (S k)). lia. }
    exists w'. eexists. split; [exact Hrun|].
    rewrite Htr, trace_retried, <- !app_assoc. split; [reflexivity|].
    rewrite !grab_ids_app, !sleeps_app, grab_ids_retry_log, sleeps_retry_log.
    cbn [attempt_events grab_ids sleeps app List.length repeat].
    rewrite Hgrabs, Hsleeps, Hmgr. repeat split.
    f_equal. unfold retry_sleep, milliseconds_minus.
    rewrite wrap64_small by lia. f_equal. lia.
Qed.

End Rejecting.

(** C10, amended: with a strictly negative [waitFor] that is far enough from
    the least duration for [waitFor - elapsed] not to wrap around in any of
    the iterations run, a catalog that always rejects cleanly and a clock
    that never runs backwards, [lock] never leaves its loop: however many
    iterations it is given, it makes that many grab attempts and is still
    running.  The remaining budget is zero in every iteration, so the
    duration handed to sleepFor is min(lockTryInterval, 0): never positive,
    and zero when [lockTryInterval] is not negative. *)
Theorem lock_negative_wait fuel name why waitFor interval w :
  always_rejects ->
  clock_monotone ->
  waitFor < 0 ->
  (forall k, (k < fuel)%nat ->
     attempt_end name why
       (snd (lock_head k name why waitFor interval
                       (mkTimer (curTimeMillis (env w)))
                       (mkTimer (curTimeMillis (env w))) w))
     - curTimeMillis (env w) <= waitFor + 9223372036854775808) ->
  exists w' tr,
    lock fuel name why waitFor interval w = OutOfFuel w' /\
    trace w' = trace w ++ tr /\
    List.length (grab_ids tr) = fuel /\
    sleeps tr = repeat (Z.min interval 0) fuel /\
    Forall (fun d => d <= 0) (sleeps tr) /\
    (0 <= interval -> Forall (fun d => d = 0) (sleeps tr)).
Proof.
  intros Hrej Hmono Hneg Hfits. rewrite lock_eq.
  destruct (lock_loop_negative Hrej Hmono name why waitFor interval Hneg fuel
              (mkTimer (curTimeMillis (env w))) (mkTimer (curTimeMillis (env w))) w)
    as (w' & tr & Hrun & Htr & Hgrabs & Hsleeps & _);
    [apply Z.le_refl|exact Hfits|].
  exists w', tr. rewrite Hsleeps. repeat split; auto.
  - apply Forall_forall. intros d Hd. apply repeat_spec in Hd. lia.
  - intros Hi. apply Forall_forall. intros d Hd. apply repeat_spec in Hd. lia.
Qed.

Section TimingOut.

Variables (lo hi slack : Z).
Hypothesis Hrej : always_rejects.
Hypothesis Hmono : clock_monotone.
Hypothesis Hleast : sleep_at_least.
Hypothesis Hmost : sleep_at_most slack.
Hypothesis Hlasts : attempt_lasts lo hi.

Lemma attempt_end_bounds name why w :
  curTimeMillis (env w) + lo <= attempt_end name why w <= curTimeMillis (env w) + hi.
Proof. apply Hlasts. Qed.

Lemma retried_bounds name why waitFor interval timer msgTimer w :
  let d := retry_sleep name why waitFor interval timer w in
  let c := curTimeMillis (env (retried name why waitFor interval timer msgTimer w)) in
  attempt_end name why w + Z.max 0 d <= c <= attempt_end name why w + Z.max 0 d + slack.
Proof.
  cbv zeta. cbn [retried env]. fold (attempt_end name why w).
  set (d := retry_sleep name why waitFor interval timer w).
  pose proof (Hleast d (snd (attempt_result name why w))) as H1.
  pose proof (Hmost d (snd (attempt_result name why w))) as H2.
  pose proof (Hmono _ _ (step_sleepFor d (snd (attempt_result name why w)))) as H3.
  fold (attempt_end name why w) in H1, H2, H3. lia.
Qed.

Lemma lock_loop_times_out name why T interval :
  0 < T < 9223372036854775808 ->
  hi <= 9223372036854775808 ->
  0 < interval \/ 0 < lo ->
  forall fuel timer msgTimer w,
    0 <= curTimeMillis (env w) - _old timer <= T + hi + slack ->
    Z.max 0 (T - (curTimeMillis (env w) - _old timer)) < Z.of_nat fuel ->
    exists w',
      lock_loop fuel name why T interval timer msgTimer w
      = Done (SW_error (mkStatus ErrorCodes.LockBusy
                                 ("timed out waiting for " ++ name)%string)) w' /\
      T <= curTimeMillis (env w') - _old timer <= T + hi + slack.
Proof.
  intros HT Hhi Hprogress.
  induction fuel as [|fuel IH]; intros timer msgTimer w He Hfuel; [lia|].
  rewrite (lock_loop_rejected Hrej).
  replace (T <=? 0) with false by (symmetry; apply Z.leb_gt; lia).
  replace (T =? 0) with false by (symmetry; apply Z.eqb_neq; lia).
  cbn [orb].
  destruct (Z.ltb_spec (curTimeMillis (env w) - _old timer) T) as [Hlt|Hge].
  2:{ exists w. split; [reflexivity|]. lia. }
  pose proof (attempt_end_bounds name why w) as Ha.
  pose proof (attempt_end_ge Hmono name why w) as Ha'.
  pose proof (retried_bounds name why T interval timer msgTimer w) as Hr.
  cbv zeta in Hr. unfold retry_sleep, milliseconds_minus in Hr.
  rewrite wrap64_small in Hr by lia.
  apply IH; lia.
Qed.

End TimingOut.

(** C4, amended: with a strictly positive [waitFor = T] (a 64-bit duration)
    and a catalog that always rejects cleanly, on a clock that never runs
    backwards, where sleepFor lasts at least its argument and at most
    [slack] longer, one attempt lasts between [lo] and [hi] (itself within
    the range of durations), and time advances from one iteration to the
    next ([lockTryInterval > 0] or [lo > 0]): [lock] returns within [T + 1]
    iterations, with the failure LockBusy whose reason names the lock, no
    earlier than [T] and no later than [T + hi + slack] after its start. *)
Theorem lock_times_out fuel name why T interval lo hi slack w :
  always_rejects ->
  clock_monotone ->
  sleep_at_least ->
  sleep_at_most slack ->
  attempt_lasts lo hi ->
  0 < interval \/ 0 < lo ->
  0 < T < 9223372036854775808 ->
  hi <= 9223372036854775808 ->
  (Z.to_nat T < fuel)%nat ->
  exists w',
    lock fuel name why T interval w
    = Done (SW_error (mkStatus ErrorCodes.LockBusy
                               ("timed out waiting for " ++ name)%string)) w' /\
    T <= curTimeMillis (env w') - curTimeMillis (env w) <= T + hi + slack.
Proof.
  intros Hrej Hmono Hleast Hmost Hlasts Hprogress HT Hhi Hfuel. rewrite lock_eq.
  pose proof (Hlasts name "" "" 0 why (env w)) as Ha. cbv zeta in Ha.
  pose proof (Hmono _ _ (step_OID_gen (env w))) as H1.
  pose proof (Hmono _ _ (step_grabLock name (fst (OID_gen (env w))) "" "" 0 why
                           (snd (OID_gen (env w))))) as H2.
  pose proof (Hmost 0 (env w)) as H3.
  pose proof (Hmono _ _ (step_sleepFor 0 (env w))) as H4.
  apply (lock_loop_times_out lo hi slack Hrej Hmono Hleast Hmost Hlasts
           name why T interval HT Hhi Hprogress fuel
           (mkTimer (curTimeMillis (env w))) (mkTimer (curTimeMillis (env w))) w);
    cbn [_old]; lia.
Qed.

(** ** Session ids *)

Section Fresh.

Variable issued : E -> OID -> Prop.
Hypothesis Huniq : unique_ids issued.

Lemma ids_tracked_stable : stable (ids_tracked issued).
Proof.
  split; unfold ids_tracked; cbn [trace env].
  - intros m e e' tr Hstep [Hnd Hiss]. split; [exact Hnd|].
    intros id Hin. eapply (issued_kept _ Huniq); eauto.
  - intros m e tr ev Hev [Hnd Hiss]. rewrite grab_ids_app, Hev, app_nil_r. auto.
  - auto.
Qed.

Lemma ids_tracked_attempted name why w :
  ids_tracked issued w -> ids_tracked issued (attempted name why w).
Proof.
  intros [Hnd Hiss]. unfold ids_tracked, attempted, attempt_events.
  cbn [trace env]. rewrite grab_ids_app. cbn [grab_ids].
  assert (Hnew : ~ In (attempt_id w) (grab_ids (trace w))).
  { intros Hin. apply (gen_fresh _ Huniq (env w)). now apply Hiss. }
  split.
  - apply NoDup_app; [exact Hnd|repeat constructor; intros []|].
    intros id Hin [<-|[]]. contradiction.
  - intros id Hin. unfold attempt_result.
    apply (issued_kept _ Huniq _ _ _ (step_grabLock _ _ _ _ _ _ _)).
    apply in_app_or in Hin. destruct Hin as [Hin|[<-|[]]].
    + apply (issued_kept _ Huniq _ _ _ (step_OID_gen _)). now apply Hiss.
    + apply (gen_issued _ Huniq).
Qed.

Lemma ids_tracked_retried name why waitFor interval timer msgTimer w :
  ids_tracked issued w ->
  ids_tracked issued (retried name why waitFor interval timer msgTimer w).
Proof.
  intros Hw. apply (ids_tracked_attempted name why) in Hw.
  destruct Hw as [Hnd Hiss]. unfold ids_tracked, retried, attempted in *.
  cbn [trace env] in *. cbv zeta.
  rewrite !app_assoc, grab_ids_app. cbn [grab_ids]. rewrite app_nil_r.
  rewrite grab_ids_app, grab_ids_retry_log, app_nil_r.
  split; [exact Hnd|]. intros id Hin.
  apply (issued_kept _ Huniq _ _ _ (step_sleepFor _ _)). now apply Hiss.
Qed.

Lemma ids_tracked_lock_loop fuel name why waitFor interval :
  forall timer msgTimer,
    preserves (ids_tracked issued)
              (lock_loop fuel name why waitFor interval timer msgTimer).
Proof.
  induction fuel as [|fuel IH]; intros timer msgTimer w Hw; [exact Hw|].
  rewrite lock_loop_S. cbv zeta.
  destruct (_ || _); [|exact Hw].
  destruct (isOK _); [now apply ids_tracked_attempted|].
  destruct (Status_neq _ _).
  { apply (preserves_queueUnlock _ ids_tracked_stable (attempt_id w)
             (attempted name why w)).
    now apply ids_tracked_attempted. }
  destruct (waitFor =? 0); [now apply ids_tracked_attempted|].
  apply IH. now apply ids_tracked_retried.
Qed.

Lemma ids_tracked_run_call c w :
  ids_tracked issued w -> ids_tracked issued (run_call c w).
Proof.
  pose proof ids_tracked_stable as HP. intros Hw.
  destruct c; cbn [run_call].
  - now apply (preserves_startUp _ HP).
  - apply (preserves_shutDown _ HP); auto.
  - now apply (preserves_isShutDown _ HP).
  - now apply (preserves_doTask _ HP).
  - rewrite lock_eq. now apply ids_tracked_lock_loop.
  - now apply (preserves_unlock _ HP).
  - now apply (preserves_checkStatus _ HP).
  - now apply (preserves_queueUnlock _ HP).
Qed.

Lemma ids_tracked_run_calls cs w :
  ids_tracked issued w -> ids_tracked issued (run_calls cs w).
Proof.
  revert w. induction cs as [|c cs IH]; intros w Hw; [exact Hw|].
  apply IH. now apply ids_tracked_run_call.
Qed.

End Fresh.

Lemma minted_after_retry name why waitFor interval timer msgTimer w tr :
  minted_per_attempt tr ->
  minted_per_attempt
    (attempt_events name why w ++ retry_log name why timer msgTimer w ++
     [EvSleepFor (retry_sleep name why waitFor interval timer w)] ++ tr).
Proof.
  intros Htr. unfold attempt_events, retry_log. cbv zeta.
  destruct (10 <? _); cbn; auto.
Qed.

Lemma lock_loop_mints fuel name why waitFor interval :
  forall timer msgTimer w,
  exists tr,
    trace (final (lock_loop fuel name why waitFor interval timer msgTimer w))
    = trace w ++ tr /\
    minted_per_attempt tr /\
    forall handle w',
      lock_loop fuel name why waitFor interval timer msgTimer w
      = Done (SW_value handle) w' ->
      exists pre who pid now st,
        tr = pre ++ [EvOIDGen (lockID handle);
                     EvGrabLock name (lockID handle) who pid now why st] /\
        isOK st = true.
Proof.
  induction fuel as [|fuel IH]; intros timer msgTimer w.
  { exists []. split; [symmetry; apply app_nil_r|]. split; [exact I|discriminate]. }
  rewrite lock_loop_S. cbv zeta.
  destruct (_ || _).
  2:{ exists []. split; [symmetry; apply app_nil_r|]. split; [exact I|discriminate]. }
  destruct (isOK (attempt_status name why w)) eqn:Hok.
  { exists (attempt_events name why w). split; [reflexivity|].
    split; [split; [reflexivity|exact I]|].
    intros handle w' Hret. injection Hret as <- _.
    exists []. do 4 eexists. split; [reflexivity|exact Hok]. }
  destruct (Status_neq _ _).
  { exists (attempt_events name why w ++ [EvQueueUnlock (attempt_id w)]).
    cbn [final trace attempted]. rewrite <- app_assoc.
    split; [reflexivity|]. split; [|discriminate]. cbn. auto. }
  destruct (waitFor =? 0).
  { exists (attempt_events name why w). split; [reflexivity|].
    split; [split; [reflexivity|exact I]|discriminate]. }
  destruct (IH timer (retry_msgTimer name why msgTimer w)
              (retried name why waitFor interval timer msgTimer w))
    as (tr & Htr & Hmint & Hhandle).
  eexists. rewrite Htr, trace_retried, <- !app_assoc.
  split; [reflexivity|]. split; [now apply minted_after_retry|].
  intros handle w' Hret.
  destruct (Hhandle handle w' Hret) as (pre & who & pid & now & st & -> & Hst).
  exists (attempt_events name why w ++ retry_log name why timer msgTimer w ++
          [EvSleepFor (retry_sleep name why waitFor interval timer w)] ++ pre),
    who, pid, now, st.
  rewrite <- !app_assoc. split; [reflexivity|exact Hst].
Qed.


End Properties.

(** * Further properties *)

Section Further.

Context {E LocksType : Type}.
Context {catalog : DistLockCatalog E LocksType}.
Context {platform : Platform E}.

Implicit Types (w : World E) (m : ReplSetDistLockManager) (h : DistLockHandle).

(** ** Reading the trace of two runs in a row *)

Lemma unlocked_app tr1 tr2 : unlocked (tr1 ++ tr2) = unlocked tr1 ++ unlocked tr2.
Proof.
  induction tr1 as [|ev tr1 IH]; [reflexivity|].
  destruct ev; simpl; rewrite ?IH; reflexivity.
Qed.

Lemma queued_app tr1 tr2 : queued (tr1 ++ tr2) = queued tr1 ++ queued tr2.
Proof.
  induction tr1 as [|ev tr1 IH]; [reflexivity|].
  destruct ev; simpl; rewrite ?IH; reflexivity.
Qed.

Lemma unlock_failures_app tr1 tr2 :
  unlock_failures (tr1 ++ tr2) = unlock_failures tr1 ++ unlock_failures tr2.
Proof.
  induction tr1 as [|ev tr1 IH]; [reflexivity|].
  destruct ev; simpl; rewrite ?IH; try reflexivity.
  now destruct (isOK st).
Qed.

Lemma pings_app tr1 tr2 : pings (tr1 ++ tr2) = pings tr1 ++ pings tr2.
Proof.
  induction tr1 as [|ev tr1 IH]; [reflexivity|].
  destruct ev; simpl; rewrite ?IH; reflexivity.
Qed.

Lemma waits_app tr1 tr2 : waits (tr1 ++ tr2) = waits tr1 ++ waits tr2.
Proof.
  induction tr1 as [|ev tr1 IH]; [reflexivity|].
  destruct ev; simpl; rewrite ?IH; reflexivity.
Qed.

Lemma grab_statuses_app tr1 tr2 :
  grab_statuses (tr1 ++ tr2) = grab_statuses tr1 ++ grab_statuses tr2.
Proof.
  induction tr1 as [|ev tr1 IH]; [reflexivity|].
  destruct ev; simpl; rewrite ?IH; reflexivity.
Qed.

(** ** Threads that only signal *)

Lemma only_signal_unlockList cs m :
  (forall c, In c cs -> c = OtherShutDown) ->
  _unlockList (apply_concurrents cs m) = _unlockList m.
Proof.
  revert m. induction cs as [|c cs IH]; intros m Hcs; [reflexivity|].
  rewrite apply_concurrents_cons, IH by (intros c' Hin; apply Hcs; now right).
  rewrite (Hcs c) by now left. reflexivity.
Qed.

Lemma handover_unlockList w :
  others_only_signal -> _unlockList (mgr (handover w)) = _unlockList (mgr w).
Proof. intros Hsig. cbn [handover mgr]. apply only_signal_unlockList, Hsig. Qed.

Lemma handover_processID w : _processID (mgr (handover w)) = _processID (mgr w).
Proof. apply apply_concurrents_processID. Qed.

Lemma handover_pingInterval w :
  _pingInterval (mgr (handover w)) = _pingInterval (mgr w).
Proof. apply apply_concurrents_pingInterval. Qed.

(** ** The batch of one maintenance cycle *)

(** What the loop over the batch does, whatever the catalog and the other
    threads do. *)
Lemma doTask_batch_run batch :
  forall w,
  exists returned w' tr,
    doTask_batch batch w = Done returned w' /\
    trace w' = trace w ++ tr /\
    (exists rest, batch = unlocked tr ++ rest /\ (returned = false -> rest = [])) /\
    queued tr = unlock_failures tr /\
    pings tr = [] /\
    waits tr = [] /\
    (returned = true -> _isShutDown (mgr w') = true) /\
    _processID (mgr w') = _processID (mgr w) /\
    _pingInterval (mgr w') = _pingInterval (mgr w) /\
    (others_only_signal ->
     _unlockList (mgr w') = _unlockList (mgr w) ++ unlock_failures tr) /\
    (unlock_always_succeeds -> unlock_failures tr = []).
Proof.
  induction batch as [|toUnlock rest IH]; intros w.
  { exists false, w, []. rewrite !app_nil_r.
    repeat split; try reflexivity; try discriminate.
    exists []. split; reflexivity. }
  cbn [doTask_batch]. unfold bind at 1. rewrite catalog_unlock_eq.
  set (st := fst (unlock_ toUnlock (env w))).
  assert (Hstep : exists w1 tr1,
    (if negb (isOK st)
     then bind (emit (EvWarnUnlock toUnlock st)) (fun _ => queueUnlock toUnlock)
     else ret tt)
      (mkWorld (mgr w) (snd (unlock_ toUnlock (env w)))
               (trace w ++ [EvUnlock toUnlock st]))
    = Done tt w1 /\
    trace w1 = trace w ++ EvUnlock toUnlock st :: tr1 /\
    unlocked tr1 = [] /\ pings tr1 = [] /\ waits tr1 = [] /\
    queued tr1 = unlock_failures [EvUnlock toUnlock st] /\
    unlock_failures tr1 = [] /\
    _processID (mgr w1) = _processID (mgr w) /\
    _pingInterval (mgr w1) = _pingInterval (mgr w) /\
    (others_only_signal ->
     _unlockList (mgr w1)
     = _unlockList (mgr w) ++ unlock_failures [EvUnlock toUnlock st])).
  { destruct (isOK st) eqn:Hok; cbn [negb].
    - eexists _, []. cbn [ret trace mgr unlock_failures]. rewrite Hok, app_nil_r.
      repeat split; reflexivity.
    - unfold bind at 1, emit at 1. cbn [mgr env trace]. rewrite queueUnlock_eq.
      eexists _, [EvWarnUnlock toUnlock st; EvQueueUnlock toUnlock].
      cbn [trace mgr env unlock_failures]. rewrite Hok, <- !app_assoc.
      repeat split; try reflexivity.
      + apply apply_concurrents_processID.
      + apply apply_concurrents_pingInterval.
      + intros Hsig. cbn [push_back set_unlockList _unlockList handover mgr].
        now rewrite only_signal_unlockList by apply Hsig. }
  destruct Hstep as (w1 & tr1 & Hrun1 & Htr1 & Hu1 & Hp1 & Hw1 & Hq1 & Hf1 & Hpid1
                     & Hint1 & Hlist1).
  unfold bind at 1. rewrite Hrun1. unfold bind at 1. rewrite isShutDown_eq.
  destruct (_isShutDown (mgr (handover w1))) eqn:Hsd.
  - exists true, (handover w1), (EvUnlock toUnlock st :: tr1).
    cbn [trace handover]. split; [reflexivity|]. split; [exact Htr1|].
    cbn [unlocked queued pings waits]. rewrite Hu1, Hp1, Hw1.
    split; [exists rest; split; [reflexivity|discriminate]|].
    split. { cbn [unlock_failures] in *. destruct (isOK st); rewrite Hq1, Hf1; reflexivity. }
    repeat split; try reflexivity.
    + intros _. exact Hsd.
    + now rewrite handover_processID.
    + now rewrite handover_pingInterval.
    + intros Hsig. rewrite handover_unlockList, Hlist1 by exact Hsig.
      cbn [unlock_failures]. destruct (isOK st); now rewrite Hf1.
    + intros Hsucc. cbn [unlock_failures]. subst st. now rewrite Hsucc.
  - destruct (IH (handover w1))
      as (returned & w' & tr & Hrun & Htr & (rest' & Hrest & Hall) & Hq & Hp & Hw
          & Hret & Hpid & Hint & Hlist & Hsucc).
    exists returned, w', (EvUnlock toUnlock st :: tr1 ++ tr).
    split; [exact Hrun|].
    split. { rewrite Htr. cbn [trace handover]. rewrite Htr1, <- app_assoc. reflexivity. }
    cbn [unlocked queued pings waits].
    rewrite unlocked_app, queued_app, pings_app, waits_app, Hu1, Hp1, Hw1, Hp, Hw.
    split. { exists rest'. cbn [app]. split; [now rewrite <- Hrest|exact Hall]. }
    assert (Hfail : unlock_failures (EvUnlock toUnlock st :: tr1 ++ tr)
                    = unlock_failures [EvUnlock toUnlock st] ++ unlock_failures tr).
    { cbn [unlock_failures]. rewrite unlock_failures_app, Hf1.
      now destruct (isOK st). }
    split. { rewrite Hfail, Hq1, Hq. reflexivity. }
    repeat split; try reflexivity; try assumption.
    + now rewrite Hpid, handover_processID.
    + now rewrite Hint, handover_pingInterval.
    + intros Hsig. rewrite Hlist, handover_unlockList, Hlist1, Hfail by exact Hsig.
      now rewrite app_assoc.
    + intros Hs. rewrite Hfail, (Hsucc Hs), app_nil_r.
      cbn [unlock_failures]. subst st. now rewrite Hs.
Qed.

(** What one maintenance cycle does, whatever the catalog and the other
    threads do. *)
Lemma doTask_cycle_run w :
  exists returned w' tr,
    doTask_cycle w = Done returned w' /\
    trace w' = trace w ++ tr /\
    (exists cs rest,
       _unlockList (apply_concurrents cs (mgr w)) = unlocked tr ++ rest /\
       (returned = false -> rest = []) /\
       (no_other_task -> ~ In OtherSwap cs)) /\
    queued tr = unlock_failures tr /\
    pings tr = [_processID (mgr w)] /\
    waits tr = (if returned then [] else [_pingInterval (mgr w)]) /\
    (returned = true -> _isShutDown (mgr w') = true) /\
    _processID (mgr w') = _processID (mgr w) /\
    _pingInterval (mgr w') = _pingInterval (mgr w) /\
    (others_only_signal ->
     (exists rest, _unlockList (mgr w) = unlocked tr ++ rest /\
                   (returned = false -> rest = [])) /\
     _unlockList (mgr w') = unlock_failures tr) /\
    (unlock_always_succeeds -> unlock_failures tr = []).
Proof.
  unfold doTask_cycle.
  unfold bind at 1. unfold get at 1. unfold bind at 1. unfold read at 1.
  unfold bind at 1. unfold catalog_ping, bind at 1. unfold bind at 1, call, emit, ret.
  cbn [mgr env trace]. unfold bind at 1. rewrite lock_mutex_eq.
  unfold bind at 1, get at 1. unfold bind at 1, modify at 1.
  match goal with |- context [handover ?x] => set (w0 := x) end.
  match goal with |- context [bind (doTask_batch ?b) _ ?x] =>
    destruct (doTask_batch_run b x)
      as (returned & w3 & tr & Hrun & Htr & (rest & Hrest & Hall) & Hq & Hp & Hw
          & Hret & Hpid & Hint & Hlist & Hsucc)
  end.
  unfold bind at 1. rewrite Hrun.
  cbn [trace mgr env handover set_unlockList _unlockList _processID _pingInterval]
    in Htr, Hpid, Hint, Hlist.
  assert (Hpid0 : _processID (mgr (handover w0)) = _processID (mgr w))
    by (rewrite handover_processID; reflexivity).
  assert (Hint0 : _pingInterval (mgr (handover w0)) = _pingInterval (mgr w))
    by (rewrite handover_pingInterval; reflexivity).
  assert (Hbatch : others_only_signal ->
                   _unlockList (mgr (handover w0)) = _unlockList (mgr w))
    by (intros Hsig; rewrite handover_unlockList by exact Hsig; reflexivity).
  set (ev := EvPing _ _ _) in *.
  destruct returned.
  - exists true, w3, (ev :: tr).
    split; [reflexivity|]. split; [rewrite Htr; subst w0; cbn [trace];
                                   now rewrite <- app_assoc|].
    subst ev. cbn [unlocked queued pings waits unlock_failures]. rewrite Hp, Hw.
    split. { exists (fst (others (env w0))), rest. cbn [handover mgr] in Hrest.
             split; [exact Hrest|]. split; [discriminate|]. intros Hno. apply Hno. }
    repeat split; try assumption; try reflexivity.
    + cbn [handover mgr] in Hpid, Hpid0 |- *. congruence.
    + cbn [handover mgr] in Hint, Hint0 |- *. congruence.
    + exists rest. rewrite <- Hbatch by assumption. split; [exact Hrest|discriminate].
    + rewrite Hlist by assumption. reflexivity.
  - unfold bind at 1. rewrite lock_mutex_eq.
    unfold bind at 1, get at 1. unfold bind at 1, effect at 1.
    unfold bind at 1. unfold bind at 1. rewrite lock_mutex_eq.
    cbn [mgr env trace]. rewrite handover_pingInterval.
    cbn [handover mgr] in Hint, Hint0. rewrite Hint, Hint0.
    eexists false, _, (ev :: tr ++ [EvWaitFor (_pingInterval (mgr w))]).
    split; [reflexivity|].
    split. { cbn [trace handover]. rewrite Htr. subst w0. cbn [trace].
             now rewrite <- !app_assoc. }
    subst ev. cbn [unlocked queued pings waits unlock_failures].
    rewrite unlocked_app, queued_app, pings_app, waits_app, unlock_failures_app.
    cbn [unlocked queued pings waits unlock_failures]. rewrite Hp, Hw, !app_nil_r.
    split. { exists (fst (others (env w0))), rest. cbn [handover mgr] in Hrest.
             split; [exact Hrest|]. split; [exact Hall|]. intros Hno. apply Hno. }
    repeat split; try assumption; try reflexivity; try discriminate.
    + cbn [handover mgr]. rewrite !apply_concurrents_processID.
      cbn [handover mgr] in Hpid, Hpid0. congruence.
    + cbn [handover mgr]. rewrite !apply_concurrents_pingInterval. congruence.
    + exists rest. rewrite <- Hbatch by assumption. split; [exact Hrest|exact Hall].
    + cbn [handover mgr env].
      rewrite !only_signal_unlockList by (match goal with H : others_only_signal |- _ => apply H end).
      rewrite Hlist by assumption. reflexivity.
Qed.

(** ** A cycle whose unlocks fail *)

Lemma handover_count w h :
  no_other_task ->
  (pending h (mgr w) <= pending h (mgr (handover w)))%nat.
Proof. intros Hcallers. cbn [handover mgr]. apply apply_concurrents_count, Hcallers. Qed.

Lemma unlock_statuses_app tr1 tr2 :
  unlock_statuses (tr1 ++ tr2) = unlock_statuses tr1 ++ unlock_statuses tr2.
Proof.
  induction tr1 as [|ev tr1 IH]; [reflexivity|].
  destruct ev; simpl; rewrite ?IH; reflexivity.
Qed.

Lemma all_failed_unlocks tr :
  Forall (fun st => isOK st = false) (unlock_statuses tr) ->
  unlock_failures tr = unlocked tr.
Proof.
  induction tr as [|ev tr IH]; [reflexivity|].
  destruct ev; cbn [unlock_statuses unlock_failures unlocked]; try exact IH.
  intros Hall. inversion Hall as [|? ? Hst Hrest]; subst.
  rewrite Hst, IH by exact Hrest. reflexivity.
Qed.

(** Every handle the loop over the batch queues is in the queue when the
    loop is left, on top of what the queue held. *)
Lemma doTask_batch_keeps batch :
  no_other_task ->
  forall w,
  exists returned w' tr,
    doTask_batch batch w = Done returned w' /\
    trace w' = trace w ++ tr /\
    forall h,
      (pending h (mgr w) + count_occ N.eq_dec (queued tr) h
       <= pending h (mgr w'))%nat.
Proof.
  intros Hcallers. induction batch as [|toUnlock rest IH]; intros w.
  { exists false, w, []. rewrite app_nil_r. split; [reflexivity|].
    split; [reflexivity|]. intros h. cbn [queued count_occ]. lia. }
  cbn [doTask_batch]. unfold bind at 1. rewrite catalog_unlock_eq.
  set (st := fst (unlock_ toUnlock (env w))).
  assert (Hstep : exists w1 tr1,
    (if negb (isOK st)
     then bind (emit (EvWarnUnlock toUnlock st)) (fun _ => queueUnlock toUnlock)
     else ret tt)
      (mkWorld (mgr w) (snd (unlock_ toUnlock (env w)))
               (trace w ++ [EvUnlock toUnlock st]))
    = Done tt w1 /\
    trace w1 = trace w ++ EvUnlock toUnlock st :: tr1 /\
    forall h,
      (pending h (mgr w) + count_occ N.eq_dec (queued tr1) h
       <= pending h (mgr w1))%nat).
  { destruct (isOK st) eqn:Hok; cbn [negb].
    - eexists _, []. cbn [ret trace mgr].
      split; [reflexivity|]. split; [reflexivity|].
      intros h. cbn [queued count_occ mgr]. lia.
    - unfold bind at 1, emit at 1. cbn [mgr env trace]. rewrite queueUnlock_eq.
      eexists _, [EvWarnUnlock toUnlock st; EvQueueUnlock toUnlock].
      cbn [trace mgr env]. rewrite <- !app_assoc.
      split; [reflexivity|]. split; [reflexivity|]. intros h.
      match goal with |- context [handover ?x] =>
        pose proof (handover_count x h Hcallers) as Hle
      end.
      cbn [mgr handover] in Hle |- *. unfold pending in Hle |- *.
      cbn [push_back set_unlockList _unlockList queued].
      rewrite count_occ_app. apply Nat.add_le_mono_r. exact Hle. }
  destruct Hstep as (w1 & tr1 & Hrun1 & Htr1 & Hcount1).
  unfold bind at 1. rewrite Hrun1. unfold bind at 1. rewrite isShutDown_eq.
  destruct (_isShutDown (mgr (handover w1))) eqn:Hsd.
  - exists true, (handover w1), (EvUnlock toUnlock st :: tr1).
    cbn [trace handover]. split; [reflexivity|]. split; [exact Htr1|].
    intros h. cbn [queued].
    pose proof (handover_count w1 h Hcallers) as Hle.
    specialize (Hcount1 h). lia.
  - destruct (IH (handover w1)) as (returned & w' & tr & Hrun & Htr & Hcount).
    exists returned, w', (EvUnlock toUnlock st :: tr1 ++ tr).
    split; [exact Hrun|].
    split. { rewrite Htr. cbn [trace handover]. rewrite Htr1, <- app_assoc. reflexivity. }
    intros h. cbn [queued]. rewrite queued_app, count_occ_app.
    pose proof (handover_count w1 h Hcallers) as Hle.
    specialize (Hcount1 h). specialize (Hcount h).
    rewrite Nat.add_assoc. etransitivity; [|exact Hcount].
    apply Nat.add_le_mono_r. etransitivity; [exact Hcount1|exact Hle].
Qed.

(** The batch of a cycle is the queue the task finds under the mutex after
    its ping; what the cycle queues is in the queue when the cycle ends. *)
Lemma doTask_cycle_keeps w :
  exists returned w' tr,
    doTask_cycle w = Done returned w' /\
    trace w' = trace w ++ tr /\
    (exists rest, cycle_batch w = unlocked tr ++ rest /\
                  (returned = false -> rest = [])) /\
    (no_other_task ->
     forall h, (count_occ N.eq_dec (queued tr) h <= pending h (mgr w'))%nat).
Proof.
  unfold doTask_cycle, cycle_batch.
  unfold bind at 1. unfold get at 1. unfold bind at 1. unfold read at 1.
  unfold bind at 1. unfold catalog_ping, bind at 1. unfold bind at 1, call, emit, ret.
  cbn [mgr env trace]. unfold bind at 1. rewrite lock_mutex_eq.
  unfold bind at 1, get at 1. unfold bind at 1, modify at 1.
  match goal with |- context [handover ?x] => set (w0 := x) end.
  match goal with |- context [bind (doTask_batch ?b) _ ?x] =>
    destruct (doTask_batch_run b x)
      as (returned & w3 & tr & Hrun & Htr & (rest & Hrest & Hall) & _);
    assert (Hkeep : no_other_task ->
                    forall h, (count_occ N.eq_dec (queued tr) h
                               <= pending h (mgr w3))%nat)
  end.
  { intros Hcallers h.
    match type of Hrun with doTask_batch ?b ?x = _ =>
      destruct (doTask_batch_keeps b Hcallers x)
        as (r2 & w2 & tr2 & Hrun2 & Htr2 & Hcount)
    end.
    rewrite Hrun in Hrun2. injection Hrun2 as <- <-.
    rewrite Htr in Htr2. apply app_inv_head in Htr2. subst tr2.
    specialize (Hcount h). unfold pending at 1 in Hcount.
    cbn [mgr set_unlockList _unlockList count_occ] in Hcount. exact Hcount. }
  unfold bind at 1. rewrite Hrun.
  cbn [trace mgr env handover] in Htr, Hrest.
  set (ev := EvPing _ _ _) in *.
  destruct returned.
  - exists true, w3, (ev :: tr).
    split; [reflexivity|].
    split. { rewrite Htr. subst w0. cbn [trace]. now rewrite <- app_assoc. }
    subst ev. cbn [unlocked queued].
    split; [exists rest; split; [exact Hrest|discriminate]|exact Hkeep].
  - unfold bind at 1. rewrite lock_mutex_eq.
    unfold bind at 1, get at 1. unfold bind at 1, effect at 1.
    unfold bind at 1. unfold bind at 1. rewrite lock_mutex_eq.
    cbn [mgr env trace].
    eexists false, _, (ev :: tr ++ [EvWaitFor _]).
    split; [reflexivity|].
    split. { cbn [trace handover]. rewrite Htr. subst w0. cbn [trace].
             now rewrite <- !app_assoc. }
    subst ev. cbn [unlocked queued]. rewrite unlocked_app, queued_app.
    cbn [unlocked queued]. rewrite !app_nil_r.
    split; [exists rest; split; [exact Hrest|exact Hall]|].
    intros Hcallers h. specialize (Hkeep Hcallers h).
    pose proof (handover_count w3 h Hcallers) as H3.
    match goal with |- context [handover (mkWorld ?a ?b ?c)] =>
      pose proof (handover_count (mkWorld a b c) h Hcallers) as H4
    end.
    cbn [mgr] in H4 |- *. lia.
Qed.

(** C2, amended: take a maintenance cycle in which every catalog unlock
    the cycle makes fails, the other threads being callers of the manager
    (they queue handles or signal shutdown, none swaps the queue out).  The
    cycle ends, and it tried the handles of its batch (the queue as found
    under the mutex, which holds every handle at least as often as the
    queue at the start of the cycle) in order from the front, all of them
    unless it returned from inside the batch.  Each handle it tried went
    back through queueUnlock, in the same order, and is in the queue at the
    end of the cycle at least as often as it was tried; when the other
    threads only signal shutdown, the queue at the end holds exactly the
    handles tried, in order.  When the cycle does not return from inside
    the batch, the whole batch was tried and no handle is in the queue
    fewer times after the cycle than before it.  When it does (the shutdown
    flag was seen set after an attempt), the flag is set, the cycle did not
    wait, and the handles of the batch after the last one tried were
    neither tried nor queued. *)
Theorem failed_unlocks_are_requeued w tr :
  trace (final (doTask_cycle w)) = trace w ++ tr ->
  Forall (fun st => isOK st = false) (unlock_statuses tr) ->
  no_other_task ->
  exists returned rest,
    doTask_cycle w = Done returned (final (doTask_cycle w)) /\
    cycle_batch w = unlocked tr ++ rest /\
    queued tr = unlocked tr /\
    (forall h,
       (pending h (mgr w) <= count_occ N.eq_dec (cycle_batch w) h)%nat) /\
    (forall h,
       (count_occ N.eq_dec (unlocked tr) h
        <= pending h (mgr (final (doTask_cycle w))))%nat) /\
    (others_only_signal ->
     _unlockList (mgr (final (doTask_cycle w))) = unlocked tr) /\
    (returned = false ->
     rest = [] /\
     waits tr = [_pingInterval (mgr w)] /\
     forall h,
       (pending h (mgr w) <= pending h (mgr (final (doTask_cycle w))))%nat) /\
    (returned = true ->
     _isShutDown (mgr (final (doTask_cycle w))) = true /\
     waits tr = []).
Proof.
  intros Htr Hfail Hcallers.
  destruct (doTask_cycle_run w)
    as (returned & w' & tr1 & Hrun & Htr1 & _ & Hq & _ & Hw & Hret & _ & _ & Hsig & _).
  destruct (doTask_cycle_keeps w)
    as (r2 & w2 & tr2 & Hrun2 & Htr2 & (rest & Hrest & Hall) & Hkeep).
  rewrite Hrun in Hrun2. injection Hrun2 as <- <-.
  rewrite Hrun in Htr |- *. cbn [final] in Htr |- *.
  rewrite Htr in Htr1, Htr2. apply app_inv_head in Htr1, Htr2. subst tr1 tr2.
  pose proof (all_failed_unlocks tr Hfail) as Hf.
  rewrite Hf in Hq, Hsig.
  assert (Hbatch : forall h,
            (pending h (mgr w) <= count_occ N.eq_dec (cycle_batch w) h)%nat).
  { intros h. apply (apply_concurrents_count _ (mgr w) h), Hcallers. }
  specialize (Hkeep Hcallers). rewrite Hq in Hkeep.
  exists returned, rest.
  split; [reflexivity|]. split; [exact Hrest|]. split; [exact Hq|].
  split; [exact Hbatch|]. split; [exact Hkeep|].
  split; [intros Hs; apply (Hsig Hs)|].
  split.
  - intros ->. specialize (Hall eq_refl). subst rest.
    split; [reflexivity|]. split; [exact Hw|].
    intros h. rewrite app_nil_r in Hrest.
    specialize (Hbatch h). rewrite Hrest in Hbatch.
    specialize (Hkeep h). lia.
  - intros ->. split; [apply Hret; reflexivity|exact Hw].
Qed.


(** ** The maintenance task *)


(** X2: when every catalog unlock succeeds and the other threads leave the
    queue alone, one maintenance cycle queues nothing again and leaves the
    pending-unlock queue empty. *)
Theorem cycle_drains_queue w :
  unlock_always_succeeds ->
  others_only_signal ->
  exists returned w' tr,
    doTask_cycle w = Done returned w' /\
    trace w' = trace w ++ tr /\
    queued tr = [] /\
    _unlockList (mgr w') = [].
Proof.
  intros Hsucc Hsig.
  destruct (doTask_cycle_run w)
    as (returned & w' & tr & Hrun & Htr & _ & Hq & _ & _ & _ & _ & _ & Hquiet & Hnone).
  destruct (Hquiet Hsig) as [_ Hlist].
  exists returned, w', tr. rewrite Hq, Hlist, (Hnone Hsucc). auto.
Qed.

Lemma doTask_keeps_running fuel :
  no_shutdown_signalled ->
  forall w,
    _isShutDown (mgr w) = false ->
    exists w' tr,
      doTask fuel w = OutOfFuel w' /\
      trace w' = trace w ++ tr /\
      pings tr = repeat (_processID (mgr w)) fuel /\
      waits tr = repeat (_pingInterval (mgr w)) fuel /\
      _isShutDown (mgr w') = false.
Proof.
  intros Hno. induction fuel as [|fuel IH]; intros w Hflag.
  { exists w, []. rewrite app_nil_r. repeat split. exact Hflag. }
  cbn [doTask]. unfold bind at 1. rewrite isShutDown_eq.
  assert (Hflag0 : _isShutDown (mgr (handover w)) = false).
  { cbn [handover mgr]. now rewrite apply_concurrents_not_signalled by apply Hno. }
  rewrite Hflag0.
  destruct (doTask_cycle_run (handover w))
    as (returned & w1 & tr1 & Hrun & Htr1 & _ & _ & Hp & Hw & Hret & Hpid & Hint & _).
  pose proof (preserves_doTask_cycle _ (flag_stable false Hno) (handover w) Hflag0)
    as Hkept.
  rewrite Hrun in Hkept. cbn [final] in Hkept.
  unfold bind at 1. rewrite Hrun.
  destruct returned; [rewrite Hret in Hkept by reflexivity; discriminate|].
  destruct (IH w1 Hkept) as (w' & tr & Hrun' & Htr & Hp' & Hw' & Hflag').
  exists w', (tr1 ++ tr). split; [exact Hrun'|].
  split. { rewrite Htr, Htr1. cbn [handover trace]. now rewrite app_assoc. }
  rewrite pings_app, waits_app, Hp, Hw, Hp', Hw', Hpid, Hint.
  rewrite handover_processID, handover_pingInterval. auto.
Qed.

(** X3: as long as no thread signals shutdown, the task does not return:
    given n iterations it is still running after n cycles, having pinged
    the catalog under the manager's process id once per cycle and waited
    on the shutdown condition for the ping interval once per cycle. *)
Theorem doTask_runs_until_shutdown fuel w :
  no_shutdown_signalled ->
  _isShutDown (mgr w) = false ->
  exists w' tr,
    doTask fuel w = OutOfFuel w' /\
    trace w' = trace w ++ tr /\
    pings tr = repeat (_processID (mgr w)) fuel /\
    waits tr = repeat (_pingInterval (mgr w)) fuel.
Proof.
  intros Hno Hflag.
  destruct (doTask_keeps_running fuel Hno w Hflag)
    as (w' & tr & Hrun & Htr & Hp & Hw & _).
  exists w', tr. auto.
Qed.

(** X4: once [shutDown] has returned, a run of the maintenance task returns
    at its first check of the flag: it makes no ping and no unlock, and
    leaves the queue as it finds it. *)
Theorem doTask_after_shutDown fuel w :
  exists w1 w2,
    shutDown w = Done tt w1 /\
    doTask (S fuel) w1 = Done tt w2 /\
    trace w2 = trace w1 /\
    _unlockList (mgr w2)
    = _unlockList (apply_concurrents (fst (others (env w1))) (mgr w1)).
Proof.
  destruct (shutDown_once w) as (w1 & tr & st & Hrun & _ & _ & Hflag & _).
  exists w1, (handover w1). split; [exact Hrun|].
  cbn [doTask]. unfold bind at 1. rewrite isShutDown_eq.
  cbn [handover mgr]. rewrite apply_concurrents_shut by exact Hflag.
  repeat split.
Qed.

(** X5: a handle whose [unlock] failed is retried by the next maintenance
    cycle: when no other thread swaps the queue out and the cycle does not
    return from inside its batch, the cycle attempts the catalog unlock of
    that handle. *)
Theorem failed_unlock_is_retried h w w' :
  no_other_task ->
  isOK (fst (unlock_ h (env w))) = false ->
  doTask_cycle (final (unlock h w)) = Done false w' ->
  exists tr,
    trace w' = trace (final (unlock h w)) ++ tr /\
    In h (unlocked tr).
Proof.
  intros Hno Hfail Hcycle.
  destruct (doTask_cycle_run (final (unlock h w)))
    as (returned & w2 & tr & Hrun & Htr & (cs & rest & Hbatch & Hall & Hcs) & _).
  rewrite Hcycle in Hrun. injection Hrun as <- <-.
  exists tr. split; [exact Htr|].
  rewrite (Hall eq_refl), app_nil_r in Hbatch. rewrite <- Hbatch.
  apply (count_occ_In N.eq_dec). fold (pending h (apply_concurrents cs (mgr (final (unlock h w))))).
  pose proof (apply_concurrents_count cs (mgr (final (unlock h w))) h (Hcs Hno)) as Hle.
  assert (Hone : (1 <= pending h (mgr (final (unlock h w))))%nat).
  { unfold unlock, bind. rewrite catalog_unlock_eq, Hfail. cbn [negb].
    rewrite queueUnlock_eq. cbn [final mgr]. unfold pending, push_back.
    cbn [set_unlockList _unlockList]. rewrite count_occ_app. cbn [count_occ].
    destruct (N.eq_dec h h); [lia|contradiction]. }
  lia.
Qed.

(** ** Starting and stopping *)

(** X6: on a manager whose task was not started, [startUp] followed by
    [shutDown] starts one thread, joins it, and leaves the task handle
    reset and the shutdown flag set. *)
Theorem startUp_then_shutDown w :
  _execThread (mgr w) = None ->
  exists w1 w2 tr,
    startUp w = Done tt w1 /\
    _execThread (mgr w1) = Some (mkThread true) /\
    shutDown w1 = Done tt w2 /\
    trace w2 = trace w ++ tr /\
    thread_events tr = [EvThreadStart; EvThreadJoin] /\
    _execThread (mgr w2) = None /\
    _isShutDown (mgr w2) = true.
Proof.
  intros Hnone. unfold startUp, bind, emit, get, modify. cbn [mgr env trace].
  rewrite Hnone. cbn [ret mgr env trace].
  set (w1 := mkWorld _ _ _).
  destruct (shutDown_once w1) as (w2 & tr & st & Hrun & Htr & Hth & Hflag & Hexec & _).
  exists w1, w2, (EvThreadStart :: tr ++ stopPing_events (_processID (mgr w1)) st).
  split; [reflexivity|]. split; [reflexivity|]. split; [exact Hrun|].
  split. { rewrite Htr. subst w1. cbn [trace]. now rewrite <- app_assoc. }
  split. { cbn [thread_events]. rewrite thread_events_app, Hth. subst w1.
           cbn [mgr set_execThread _execThread joinable].
           unfold stopPing_events. cbn [thread_events].
           now destruct (isOK st). }
  split; [rewrite Hexec; reflexivity|exact Hflag].
Qed.

(** ** More on the acquisition loop *)

Lemma lock_loop_frame fuel name why waitFor interval :
  forall timer msgTimer w,
    let r := lock_loop fuel name why waitFor interval timer msgTimer w in
    (forall w', r <> Crashed w') /\
    (mgr (final r) = mgr w \/
     exists k,
       let w0 := snd (lock_head k name why waitFor interval timer msgTimer w) in
       let found := apply_concurrents
                      (fst (others (env (attempted name why w0)))) (mgr w) in
       r = Done (SW_error (attempt_status name why w0)) (final r) /\
       isOK (attempt_status name why w0) = false /\
       code (attempt_status name why w0) <> ErrorCodes.LockStateChangeFailed /\
       trace (final r)
       = trace (attempted name why w0) ++ [EvQueueUnlock (attempt_id w0)] /\
       _unlockList (mgr (final r)) = _unlockList found ++ [attempt_id w0] /\
       _isShutDown (mgr (final r)) = _isShutDown found /\
       _execThread (mgr (final r)) = _execThread (mgr w) /\
       _processID (mgr (final r)) = _processID (mgr w) /\
       _pingInterval (mgr (final r)) = _pingInterval (mgr w) /\
       env (final r) = snd (others (env (attempted name why w0)))).
Proof.
  induction fuel as [|fuel IH]; intros timer msgTimer w; cbv zeta.
  { split; [discriminate|left; reflexivity]. }
  rewrite lock_loop_S. cbv zeta.
  destruct (_ || _); [|split; [discriminate|left; reflexivity]].
  destruct (isOK (attempt_status name why w)) eqn:Hok;
    [split; [discriminate|left; reflexivity]|].
  destruct (Status_neq _ _) eqn:Hneq.
  { split; [discriminate|right]. exists O. cbn [lock_head snd final].
    split; [reflexivity|]. split; [exact Hok|].
    split; [now apply Status_neq_true|]. split; [reflexivity|].
    apply (queued_after_attempt name why w (mgr w)); reflexivity. }
  destruct (waitFor =? 0); [split; [discriminate|left; reflexivity]|].
  destruct (IH timer (retry_msgTimer name why msgTimer w)
              (retried name why waitFor interval timer msgTimer w))
    as [Hsafe [Hsame|(k & Hk)]].
  - split; [exact Hsafe|left; exact Hsame].
  - split; [exact Hsafe|right]. exists (S k). rewrite lock_head_S. exact Hk.
Qed.


Lemma lock_loop_waits_out fuel name why waitFor interval :
  forall timer msgTimer w r w' tr,
    lock_loop fuel name why waitFor interval timer msgTimer w = Done r w' ->
    trace w' = trace w ++ tr ->
    Forall (fun st => code st = ErrorCodes.LockStateChangeFailed) (grab_statuses tr) ->
    waitFor <> 0 ->
    r = SW_error (mkStatus ErrorCodes.LockBusy
                           ("timed out waiting for " ++ name)%string) /\
    0 < waitFor <= curTimeMillis (env w') - _old timer.
Proof.
  induction fuel as [|fuel IH]; intros timer msgTimer w r w' tr Hrun Htr Hall Hwait.
  { discriminate. }
  rewrite lock_loop_S in Hrun. cbv zeta in Hrun.
  destruct (Z.leb_spec waitFor 0) as [Hle|Hgt]; cbn [orb] in Hrun.
  2: destruct (Z.ltb_spec (curTimeMillis (env w) - _old timer) waitFor) as [Hlt|Hge].
  3:{ injection Hrun as <- <-. split; [reflexivity|lia]. }
  all: destruct (isOK (attempt_status name why w)) eqn:Hok.
  all: try (injection Hrun as <- <-; cbn [attempted trace] in Htr;
            apply app_inv_head in Htr; subst tr; cbn in Hall;
            inversion Hall as [|? ? Hcode _]; subst;
            unfold isOK in Hok; rewrite Hcode in Hok; discriminate).
  all: destruct (Status_neq _ _) eqn:Hneq.
  all: try (injection Hrun as <- <-; cbn [trace attempted] in Htr;
            rewrite <- app_assoc in Htr;
            apply app_inv_head in Htr; subst tr; cbn in Hall;
            inversion Hall as [|? ? Hcode _]; subst;
            apply Status_neq_true in Hneq; contradiction).
  all: replace (waitFor =? 0) with false in Hrun by (symmetry; apply Z.eqb_neq; lia).
  all: destruct (lock_loop_extends fuel name why waitFor interval timer
                   (retry_msgTimer name why msgTimer w)
                   (retried name why waitFor interval timer msgTimer w))
         as [tr' Hext];
       rewrite Hrun in Hext; cbn [final] in Hext;
       rewrite Hext, trace_retried, <- app_assoc in Htr;
       apply app_inv_head in Htr; subst tr;
       rewrite !grab_statuses_app in Hall;
       repeat (apply Forall_app in Hall; destruct Hall as [_ Hall]);
       apply (IH _ _ _ r w' tr' Hrun Hext Hall Hwait).
Qed.

(** X8: whatever the catalog and the clock do, a call of [lock] with a
    non-zero [waitFor] that returns after nothing but clean rejections
    returns LockBusy, and [waitFor] is positive and has elapsed on the
    timer's clock since the call started. *)
Theorem lock_never_gives_up_early fuel name why waitFor interval w r w' tr :
  lock fuel name why waitFor interval w = Done r w' ->
  trace w' = trace w ++ tr ->
  Forall (fun st => code st = ErrorCodes.LockStateChangeFailed) (grab_statuses tr) ->
  waitFor <> 0 ->
  r = SW_error (mkStatus ErrorCodes.LockBusy
                         ("timed out waiting for " ++ name)%string) /\
  0 < waitFor <= curTimeMillis (env w') - curTimeMillis (env w).
Proof.
  rewrite lock_eq. intros Hrun Htr Hall Hwait.
  apply (lock_loop_waits_out fuel name why waitFor interval _ _ w r w' tr
           Hrun Htr Hall Hwait).
Qed.

Lemma grabs_are_for_app name why pid tr1 tr2 :
  grabs_are_for name why pid tr1 -> grabs_are_for name why pid tr2 ->
  grabs_are_for name why pid (tr1 ++ tr2).
Proof.
  induction tr1 as [|ev tr1 IH]; intros H1 H2; [exact H2|].
  destruct ev; cbn in *; try (now apply IH).
  destruct H1 as (? & ? & ? & ? & H1). repeat split; auto.
Qed.

Lemma lock_loop_paces fuel name why waitFor interval :
  forall timer msgTimer w,
  exists tr,
    trace (final (lock_loop fuel name why waitFor interval timer msgTimer w))
    = trace w ++ tr /\
    Forall (fun d => Z.min interval 0 <= d <= interval) (sleeps tr) /\
    (List.length (sleeps tr) <= List.length (grab_ids tr))%nat /\
    grabs_are_for name why (_processID (mgr w)) tr.
Proof.
  induction fuel as [|fuel IH]; intros timer msgTimer w.
  { exists []. rewrite app_nil_r. repeat split; cbn; auto. }
  rewrite lock_loop_S. cbv zeta.
  assert (Hfor : grabs_are_for name why (_processID (mgr w))
                               (attempt_events name why w)).
  { cbn. repeat split; auto. eexists. reflexivity. }
  destruct (_ || _).
  2:{ exists []. rewrite app_nil_r. repeat split; cbn; auto. }
  destruct (isOK (attempt_status name why w)).
  { exists (attempt_events name why w).
    split; [reflexivity|]. split; [cbn; auto|]. split; [cbn; lia|exact Hfor]. }
  destruct (Status_neq _ _).
  { exists (attempt_events name why w ++ [EvQueueUnlock (attempt_id w)]).
    cbn [final trace attempted]. rewrite <- app_assoc.
    split; [reflexivity|]. split; [cbn; auto|]. split; [cbn; lia|].
    apply grabs_are_for_app; [exact Hfor|exact I]. }
  destruct (waitFor =? 0).
  { exists (attempt_events name why w).
    split; [reflexivity|]. split; [cbn; auto|]. split; [cbn; lia|exact Hfor]. }
  destruct (IH timer (retry_msgTimer name why msgTimer w)
              (retried name why waitFor interval timer msgTimer w))
    as (tr & Htr & Hsl & Hlen & Hgr).
  eexists. rewrite Htr, trace_retried, <- !app_assoc. split; [reflexivity|].
  split.
  { rewrite !sleeps_app, sleeps_retry_log. cbn [attempt_events sleeps app].
    constructor; [unfold retry_sleep; lia|exact Hsl]. }
  split.
  { rewrite !sleeps_app, !grab_ids_app, sleeps_retry_log, grab_ids_retry_log.
    cbn [attempt_events sleeps grab_ids app List.length]. lia. }
  apply grabs_are_for_app; [exact Hfor|].
  apply grabs_are_for_app; [unfold retry_log; cbv zeta; now destruct (10 <? _)|].
  exact Hgr.
Qed.

(** X9: every duration [lock] hands to sleepFor lies between
    min(lockTryInterval, 0) and lockTryInterval, and [lock] sleeps only
    after a grab attempt: never more often than it has called grabLock. *)
Theorem lock_paces_its_attempts fuel name why waitFor interval w :
  exists tr,
    trace (final (lock fuel name why waitFor interval w)) = trace w ++ tr /\
    Forall (fun d => Z.min interval 0 <= d <= interval) (sleeps tr) /\
    (List.length (sleeps tr) <= List.length (grab_ids tr))%nat.
Proof.
  rewrite lock_eq.
  destruct (lock_loop_paces fuel name why waitFor interval
              (mkTimer (curTimeMillis (env w))) (mkTimer (curTimeMillis (env w))) w)
    as (tr & Htr & Hsl & Hlen & _).
  exists tr. auto.
Qed.

(** X10: every grabLock of a call of [lock] is for the lock name and the
    reason the caller gave, under the manager's process id, with an owner
    description made of that process id, a colon and a thread name. *)
Theorem lock_grabs_what_was_asked fuel name why waitFor interval w :
  exists tr,
    trace (final (lock fuel name why waitFor interval w)) = trace w ++ tr /\
    grabs_are_for name why (_processID (mgr w)) tr.
Proof.
  rewrite lock_eq.
  destruct (lock_loop_paces fuel name why waitFor interval
              (mkTimer (curTimeMillis (env w))) (mkTimer (curTimeMillis (env w))) w)
    as (tr & Htr & _ & _ & Hgr).
  exists tr. auto.
Qed.

End Further.

(** * The simulated environment meets the contracts *)

Module SimFacts.

Import Sim.

Lemma clock_never_back (cfg : Config) :
  @clock_monotone Env Doc (catalog cfg) (platform cfg).
Proof.
  intros e e' Hstep. destruct Hstep; cbn; lia.
Qed.

Lemma sleeps_long_enough (cfg : Config) : @sleep_at_least Env (platform cfg).
Proof. intros d e. cbn. lia. Qed.

Lemma sleeps_not_longer (cfg : Config) :
  @sleep_at_most Env (platform cfg) (Z.max 0 (oversleep cfg)).
Proof. intros d e. cbn. lia. Qed.

Lemma attempts_last (cfg : Config) :
  @attempt_lasts Env Doc (catalog cfg) (platform cfg)
                 (Z.max 0 (grab_latency cfg)) (Z.max 0 (grab_latency cfg)).
Proof. intros name who processID now why e. cbn. lia. Qed.

Lemma busy_rejects (latency over : Z) :
  @always_rejects Env Doc (catalog (busy latency over)).
Proof. intros name id who processID now why e. reflexivity. Qed.

Lemma busy_alone (latency over : Z) :
  @no_other_task Env (platform (busy latency over)).
Proof. intros e []. Qed.

Lemma ids_unique (cfg : Config) :
  @unique_ids Env Doc (catalog cfg) (platform cfg) issued.
Proof.
  split; unfold issued.
  - intros e. cbn. lia.
  - intros e. cbn. lia.
  - intros e e' id Hstep. destruct Hstep; cbn; lia.
Qed.

Lemma quiet_only_signal (cfg : Config) :
  (forall n, schedule cfg n = []) ->
  @others_only_signal Env (platform cfg).
Proof. intros Hq e c Hin. cbn in Hin. rewrite Hq in Hin. destruct Hin. Qed.

Lemma quiet_no_shutdown (cfg : Config) :
  (forall n, schedule cfg n = []) ->
  @no_shutdown_signalled Env (platform cfg).
Proof. intros Hq e Hin. cbn in Hin. rewrite Hq in Hin. destruct Hin. Qed.

Lemma contended_unlocks :
  @unlock_always_succeeds Env Doc (catalog contended).
Proof. intros h e. reflexivity. Qed.

End SimFacts.

(** * The claims on concrete runs *)

Section Runs.

Import Sim.

Let lock_on (cfg : Config) := @lock Env Doc (catalog cfg) (platform cfg).

(** Two clean rejections are retried, the third grab succeeds and the
    handle is the third id minted. *)
Example lock_contended :
  let r := lock_on contended 10 "jobs" "cleanup" 1000 50 world0 in
  value r = Some (SW_value (mkScopedDistLock 3%N)) /\
  grab_ids (trace (final r)) = [1%N; 2%N; 3%N] /\
  sleeps (trace (final r)) = [50; 50] /\
  clock (env (final r)) = 100.
Proof. vm_compute. repeat split. Qed.

(** Without waiting: one attempt, then LockBusy. *)
Example lock_no_wait_busy :
  let r := lock_on (busy 0 0) 1 "jobs" "cleanup" 0 50 world0 in
  value r = Some (SW_error (mkStatus ErrorCodes.LockBusy
                                     "timed out waiting for jobs")) /\
  grab_ids (trace (final r)) = [1%N] /\
  sleeps (trace (final r)) = [].
Proof. vm_compute. repeat split. Qed.

(** A lookup that finds a document that is no longer valid. *)
Example checkStatus_owner_changed :
  value (@checkStatus Env Doc (catalog flaky) 7%N world0)
  = Some (mkStatus ErrorCodes.LockNotFound "lock owner changed").
Proof. vm_compute. reflexivity. Qed.

(** A failed unlock is left to the background task. *)
Example unlock_failed_is_queued :
  let r := @unlock Env Doc (catalog (busy 0 0)) (platform (busy 0 0)) 7%N world0 in
  value r = Some tt /\ _unlockList (mgr (final r)) = [7%N].
Proof. vm_compute. split; reflexivity. Qed.

End Runs.

(** C1, on a run: the first grab is cleanly rejected, the second fails with
    a network error; the call returns that error and leaves the id of the
    second attempt, and nothing else, in the queue. *)
Lemma lock_ambiguous_failure_witness :
  let r := @lock Sim.Env Sim.Doc (Sim.catalog Sim.flaky) (Sim.platform Sim.flaky)
                 5 "jobs" "cleanup" 1000 50 Sim.world0 in
  trace (final r)
  = trace Sim.world0 ++
    [EvOIDGen 1%N;
     EvGrabLock "jobs" 1%N "host:27017:conn1" "host:27017" 0 "cleanup" Sim.rejected;
     EvSleepFor 50;
     EvOIDGen 2%N] ++
    EvGrabLock "jobs" 2%N "host:27017:conn1" "host:27017" 50 "cleanup"
               Sim.network_error
    :: [EvQueueUnlock 2%N] /\
  isOK Sim.network_error = false /\
  code Sim.network_error <> ErrorCodes.LockStateChangeFailed /\
  r = Done (SW_error Sim.network_error) (final r) /\
  _unlockList (mgr Sim.world0) = [] /\
  _unlockList (mgr (final r)) = [2%N] /\
  pending 2%N (mgr (final r)) = 1%nat /\
  _isShutDown (mgr (final r)) = false.
Proof.
  cbv zeta.
  assert (Htr : trace (final (@lock Sim.Env Sim.Doc (Sim.catalog Sim.flaky)
                                    (Sim.platform Sim.flaky)
                                    5 "jobs" "cleanup" 1000 50 Sim.world0))
                = trace Sim.world0 ++
                  [EvOIDGen 1%N;
                   EvGrabLock "jobs" 1%N "host:27017:conn1" "host:27017" 0
                              "cleanup" Sim.rejected;
                   EvSleepFor 50;
                   EvOIDGen 2%N] ++
                  EvGrabLock "jobs" 2%N "host:27017:conn1" "host:27017" 50
                             "cleanup" Sim.network_error
                  :: [EvQueueUnlock 2%N]) by (vm_compute; reflexivity).
  assert (Hfail : isOK Sim.network_error = false) by reflexivity.
  assert (Hcode : code Sim.network_error <> ErrorCodes.LockStateChangeFailed)
    by discriminate.
  split; [exact Htr|]. split; [exact Hfail|]. split; [exact Hcode|].
  pose proof (@lock_ambiguous_failure Sim.Env Sim.Doc (Sim.catalog Sim.flaky)
                (Sim.platform Sim.flaky) 5 "jobs" "cleanup" 1000 50 Sim.world0
                _ _ _ _ _ _ _ _ _ Htr Hfail Hcode) as Hthm.
  cbv zeta in Hthm.
  destruct Hthm as (w' & Hrun & _ & _ & _ & _ & Hlist & Hcount & Hflag & _).
  rewrite Hrun. cbn [final].
  split; [reflexivity|]. split; [reflexivity|].
  split; [rewrite Hlist; vm_compute; reflexivity|].
  split; [rewrite Hcount; vm_compute; reflexivity|].
  rewrite Hflag. vm_compute. reflexivity.
Defined.

(** C2 as stated fails: every catalog unlock fails, shutDown is called by
    another thread while the task works on the first handle of its batch,
    and the task returns with the second handle neither unlocked nor queued
    again. *)
Lemma shutdown_drops_rest_of_batch :
  let w := mkWorld (set_unlockList [1%N; 2%N] Sim.manager0) Sim.env0 [] in
  let r := @doTask Sim.Env Sim.Doc (Sim.catalog Sim.stopping)
                   (Sim.platform Sim.stopping) 3 w in
  value r = Some tt /\
  trace (final r) = [EvPing "host:27017" 0 Status_OK;
                     EvUnlock 1%N Sim.network_error;
                     EvWarnUnlock 1%N Sim.network_error;
                     EvQueueUnlock 1%N] /\
  _unlockList (mgr w) = [1%N; 2%N] /\
  _unlockList (mgr (final r)) = [1%N] /\
  ~ (pending 2%N (mgr w) <= pending 2%N (mgr (final r)))%nat.
Proof.
  cbv zeta. split; [vm_compute; reflexivity|]. split; [vm_compute; reflexivity|].
  split; [reflexivity|]. split; [vm_compute; reflexivity|]. vm_compute. lia.
Qed.

(** C2 (amended), on a run: no shutdown, both unlocks fail, both handles
    went through queueUnlock and are back in the queue. *)
Lemma failed_unlocks_are_requeued_witness :
  let w := mkWorld (set_unlockList [1%N; 2%N] Sim.manager0) Sim.env0 [] in
  let r := @doTask_cycle Sim.Env Sim.Doc (Sim.catalog (Sim.busy 0 0))
                         (Sim.platform (Sim.busy 0 0)) w in
  let tr := [EvPing "host:27017" 0 Status_OK;
             EvUnlock 1%N Sim.network_error;
             EvWarnUnlock 1%N Sim.network_error;
             EvQueueUnlock 1%N;
             EvUnlock 2%N Sim.network_error;
             EvWarnUnlock 2%N Sim.network_error;
             EvQueueUnlock 2%N;
             EvWaitFor 30000] in
  trace (final r) = trace w ++ tr /\
  Forall (fun st => isOK st = false) (unlock_statuses tr) /\
  @no_other_task Sim.Env (Sim.platform (Sim.busy 0 0)) /\
  value r = Some false /\
  unlocked tr = [1%N; 2%N] /\
  queued tr = [1%N; 2%N] /\
  (pending 1%N (mgr w) <= pending 1%N (mgr (final r)))%nat /\
  (pending 2%N (mgr w) <= pending 2%N (mgr (final r)))%nat /\
  _unlockList (mgr (final r)) = [1%N; 2%N].
Proof.
  cbv zeta.
  assert (Htr : trace (final (@doTask_cycle Sim.Env Sim.Doc
                                (Sim.catalog (Sim.busy 0 0))
                                (Sim.platform (Sim.busy 0 0))
                                (mkWorld (set_unlockList [1%N; 2%N] Sim.manager0)
                                         Sim.env0 [])))
                = trace (mkWorld (set_unlockList [1%N; 2%N] Sim.manager0)
                                 Sim.env0 []) ++
                  [EvPing "host:27017" 0 Status_OK;
                   EvUnlock 1%N Sim.network_error;
                   EvWarnUnlock 1%N Sim.network_error;
                   EvQueueUnlock 1%N;
                   EvUnlock 2%N Sim.network_error;
                   EvWarnUnlock 2%N Sim.network_error;
                   EvQueueUnlock 2%N;
                   EvWaitFor 30000]) by (vm_compute; reflexivity).
  assert (Hfail : Forall (fun st => isOK st = false)
                    (unlock_statuses
                       [EvPing "host:27017" 0 Status_OK;
                        EvUnlock 1%N Sim.network_error;
                        EvWarnUnlock 1%N Sim.network_error;
                        EvQueueUnlock 1%N;
                        EvUnlock 2%N Sim.network_error;
                        EvWarnUnlock 2%N Sim.network_error;
                        EvQueueUnlock 2%N;
                        EvWaitFor 30000])) by (repeat constructor).
  assert (Hval : value (@doTask_cycle Sim.Env Sim.Doc
                          (Sim.catalog (Sim.busy 0 0))
                          (Sim.platform (Sim.busy 0 0))
                          (mkWorld (set_unlockList [1%N; 2%N] Sim.manager0)
                                   Sim.env0 []))
                 = Some false) by (vm_compute; reflexivity).
  split; [exact Htr|]. split; [exact Hfail|].
  split; [apply SimFacts.busy_alone|]. split; [exact Hval|].
  destruct (@failed_unlocks_are_requeued Sim.Env Sim.Doc
              (Sim.catalog (Sim.busy 0 0)) (Sim.platform (Sim.busy 0 0))
              (mkWorld (set_unlockList [1%N; 2%N] Sim.manager0) Sim.env0 [])
              _ Htr Hfail (SimFacts.busy_alone 0 0))
    as (returned & rest & Hrun & _ & Hq & _ & _ & Hsig & Hdone & _).
  rewrite Hrun in Hval. injection Hval as ->.
  destruct (Hdone eq_refl) as (_ & _ & Hkept).
  split; [reflexivity|]. split; [exact Hq|].
  split; [apply Hkept|]. split; [apply Hkept|].
  apply Hsig, SimFacts.quiet_only_signal. reflexivity.
Defined.

(** C4 as stated fails: the catalog always rejects cleanly but takes 100 ms
    to answer; with a wait of 10 ms and a retry interval of 1 ms the call
    returns LockBusy after 100 ms, not within 10 + 1. *)
Lemma slow_catalog_overshoots :
  let r := @lock Sim.Env Sim.Doc (Sim.catalog (Sim.busy 100 0))
                 (Sim.platform (Sim.busy 100 0)) 11 "jobs" "cleanup" 10 1
                 Sim.world0 in
  @always_rejects Sim.Env Sim.Doc (Sim.catalog (Sim.busy 100 0)) /\
  value r = Some (SW_error (mkStatus ErrorCodes.LockBusy
                                     "timed out waiting for jobs")) /\
  Sim.clock (env (final r)) - Sim.clock (env Sim.world0) = 100 /\
  ~ (Sim.clock (env (final r)) - Sim.clock (env Sim.world0) <= 10 + 1).
Proof.
  cbv zeta. split; [apply SimFacts.busy_rejects|].
  split; [vm_compute; reflexivity|].
  match goal with
  | |- ?elapsed = 100 /\ _ =>
      assert (Helapsed : elapsed = 100) by (vm_compute; reflexivity);
      rewrite Helapsed
  end.
  split; [reflexivity|lia].
Qed.

(** C4 (amended), on a run: grabs take 2 ms, sleeps last 1 ms too long;
    a wait of 10 ms with a retry interval of 3 ms ends between 10 and
    10 + 2 + 1 ms. *)
Lemma lock_times_out_witness :
  @always_rejects Sim.Env Sim.Doc (Sim.catalog (Sim.busy 2 1)) /\
  (0 < 3 \/ 0 < 2) /\
  0 < 10 < 9223372036854775808 /\
  2 <= 9223372036854775808 /\
  (Z.to_nat 10 < 11)%nat /\
  exists w',
    @lock Sim.Env Sim.Doc (Sim.catalog (Sim.busy 2 1))
          (Sim.platform (Sim.busy 2 1)) 11 "jobs" "cleanup" 10 3 Sim.world0
    = Done (SW_error (mkStatus ErrorCodes.LockBusy "timed out waiting for jobs"))
           w' /\
    10 <= Sim.clock (env w') - Sim.clock (env Sim.world0) <= 10 + 2 + 1.
Proof.
  split; [apply SimFacts.busy_rejects|].
  split; [left; lia|]. split; [lia|]. split; [lia|]. split; [cbn; lia|].
  apply (@lock_times_out Sim.Env Sim.Doc (Sim.catalog (Sim.busy 2 1))
           (Sim.platform (Sim.busy 2 1)) 11 "jobs" "cleanup" 10 3 2 2 1
           Sim.world0).
  - apply SimFacts.busy_rejects.
  - apply SimFacts.clock_never_back.
  - apply SimFacts.sleeps_long_enough.
  - apply (SimFacts.sleeps_not_longer (Sim.busy 2 1)).
  - apply (SimFacts.attempts_last (Sim.busy 2 1)).
  - left; lia.
  - lia.
  - lia.
  - cbn; lia.
Defined.


(** C10 as stated fails, in two ways.  With the least duration as
    [waitFor], a retry interval of 50 ms and a catalog that takes 1 ms to
    reject, [waitFor - elapsed] wraps around to a large positive budget and
    the loop sleeps 50 ms between attempts: it paces at lockTryInterval.
    With a negative retry interval the duration handed to sleepFor is that
    interval, not zero. *)
Lemma negative_wait_sleeps_not_zero :
  let r := @lock Sim.Env Sim.Doc (Sim.catalog (Sim.busy 1 0))
                 (Sim.platform (Sim.busy 1 0)) 2 "jobs" "cleanup"
                 (-9223372036854775808) 50 Sim.world0 in
  let r' := @lock Sim.Env Sim.Doc (Sim.catalog (Sim.busy 0 0))
                  (Sim.platform (Sim.busy 0 0)) 2 "jobs" "cleanup" (-1) (-5)
                  Sim.world0 in
  @always_rejects Sim.Env Sim.Doc (Sim.catalog (Sim.busy 1 0)) /\
  -9223372036854775808 < 0 /\
  sleeps (trace (final r)) = [50; 50] /\
  ~ Forall (fun d => d = 0) (sleeps (trace (final r))) /\
  @always_rejects Sim.Env Sim.Doc (Sim.catalog (Sim.busy 0 0)) /\
  sleeps (trace (final r')) = [-5; -5] /\
  ~ Forall (fun d => d = 0) (sleeps (trace (final r'))).
Proof.
  cbv zeta. split; [apply SimFacts.busy_rejects|]. split; [lia|].
  split; [vm_compute; reflexivity|].
  split; [vm_compute; intros H; inversion H; discriminate|].
  split; [apply SimFacts.busy_rejects|].
  split; [vm_compute; reflexivity|].
  vm_compute. intros H. inversion H. discriminate.
Qed.

(** C10 (amended), on a run: a wait of -1 ms with a retry interval of 50 ms;
    three units of fuel give three attempts and three sleeps of 0 ms. *)
Lemma lock_negative_wait_witness :
  @always_rejects Sim.Env Sim.Doc (Sim.catalog (Sim.busy 0 0)) /\
  @clock_monotone Sim.Env Sim.Doc (Sim.catalog (Sim.busy 0 0))
                  (Sim.platform (Sim.busy 0 0)) /\
  -1 < 0 /\
  (forall k, (k < 3)%nat ->
     @attempt_end Sim.Env Sim.Doc (Sim.catalog (Sim.busy 0 0))
       (Sim.platform (Sim.busy 0 0)) "jobs" "cleanup"
       (snd (@lock_head Sim.Env Sim.Doc (Sim.catalog (Sim.busy 0 0))
               (Sim.platform (Sim.busy 0 0)) k "jobs" "cleanup" (-1) 50
               (mkTimer (Sim.clock (env Sim.world0)))
               (mkTimer (Sim.clock (env Sim.world0))) Sim.world0))
     - Sim.clock (env Sim.world0) <= -1 + 9223372036854775808) /\
  exists w' tr,
    @lock Sim.Env Sim.Doc (Sim.catalog (Sim.busy 0 0))
          (Sim.platform (Sim.busy 0 0)) 3 "jobs" "cleanup" (-1) 50 Sim.world0
    = OutOfFuel w' /\
    trace w' = trace Sim.world0 ++ tr /\
    List.length (grab_ids tr) = 3%nat /\
    sleeps tr = repeat (Z.min 50 0) 3 /\
    Forall (fun d => d <= 0) (sleeps tr) /\
    (0 <= 50 -> Forall (fun d => d = 0) (sleeps tr)).
Proof.
  assert (Hfits : forall k, (k < 3)%nat ->
     @attempt_end Sim.Env Sim.Doc (Sim.catalog (Sim.busy 0 0))
       (Sim.platform (Sim.busy 0 0)) "jobs" "cleanup"
       (snd (@lock_head Sim.Env Sim.Doc (Sim.catalog (Sim.busy 0 0))
               (Sim.platform (Sim.busy 0 0)) k "jobs" "cleanup" (-1) 50
               (mkTimer (Sim.clock (env Sim.world0)))
               (mkTimer (Sim.clock (env Sim.world0))) Sim.world0))
     - Sim.clock (env Sim.world0) <= -1 + 9223372036854775808).
  { intros k Hk. destruct k as [|[|[|k]]]; [| | |lia];
      vm_compute; discriminate. }
  split; [apply SimFacts.busy_rejects|].
  split; [apply SimFacts.clock_never_back|].
  split; [lia|]. split; [exact Hfits|].
  apply (@lock_negative_wait Sim.Env Sim.Doc (Sim.catalog (Sim.busy 0 0))
           (Sim.platform (Sim.busy 0 0)) 3 "jobs" "cleanup" (-1) 50 Sim.world0).
  - apply SimFacts.busy_rejects.
  - apply SimFacts.clock_never_back.
  - lia.
  - exact Hfits.
Defined.

(** * The further properties on concrete runs *)

(** Three handles are pending; the unlocks of the first and of the third
    fail, and these two are the queue after the cycle. *)
Example cycle_mixed_replies :
  let r := @doTask_cycle Sim.Env Sim.Doc (Sim.catalog Sim.mixed)
             (Sim.platform Sim.mixed)
             (mkWorld (set_unlockList [1%N; 2%N; 3%N] Sim.manager0) Sim.env0 []) in
  value r = Some false /\
  unlocked (trace (final r)) = [1%N; 2%N; 3%N] /\
  _unlockList (mgr (final r)) = [1%N; 3%N].
Proof. vm_compute. repeat split. Qed.


(** X2, on a run: two handles are pending and every unlock succeeds. *)
Lemma cycle_drains_queue_witness :
  @unlock_always_succeeds Sim.Env Sim.Doc (Sim.catalog Sim.contended) /\
  @others_only_signal Sim.Env (Sim.platform Sim.contended) /\
  exists returned w' tr,
    @doTask_cycle Sim.Env Sim.Doc (Sim.catalog Sim.contended)
      (Sim.platform Sim.contended)
      (mkWorld (set_unlockList [1%N; 2%N] Sim.manager0) Sim.env0 [])
    = Done returned w' /\
    trace w' = [] ++ tr /\
    queued tr = [] /\
    _unlockList (mgr w') = [].
Proof.
  split; [apply SimFacts.contended_unlocks|].
  split; [apply SimFacts.quiet_only_signal; reflexivity|].
  apply (@cycle_drains_queue Sim.Env Sim.Doc (Sim.catalog Sim.contended)
           (Sim.platform Sim.contended)
           (mkWorld (set_unlockList [1%N; 2%N] Sim.manager0) Sim.env0 [])).
  - apply SimFacts.contended_unlocks.
  - apply SimFacts.quiet_only_signal. reflexivity.
Defined.

(** X3, on a run: three cycles, three pings, three waits of 30 s. *)
Lemma doTask_runs_until_shutdown_witness :
  @no_shutdown_signalled Sim.Env (Sim.platform (Sim.busy 0 0)) /\
  _isShutDown (mgr Sim.world0) = false /\
  exists w' tr,
    @doTask Sim.Env Sim.Doc (Sim.catalog (Sim.busy 0 0))
            (Sim.platform (Sim.busy 0 0)) 3 Sim.world0
    = OutOfFuel w' /\
    trace w' = trace Sim.world0 ++ tr /\
    pings tr = repeat "host:27017" 3 /\
    waits tr = repeat 30000 3.
Proof.
  split; [apply SimFacts.quiet_no_shutdown; reflexivity|].
  split; [reflexivity|].
  apply (@doTask_runs_until_shutdown Sim.Env Sim.Doc (Sim.catalog (Sim.busy 0 0))
           (Sim.platform (Sim.busy 0 0)) 3 Sim.world0).
  - apply SimFacts.quiet_no_shutdown. reflexivity.
  - reflexivity.
Defined.

(** X5, on a run: the unlock of handle 7 fails, and the next cycle tries it
    again. *)
Lemma failed_unlock_is_retried_witness :
  @no_other_task Sim.Env (Sim.platform (Sim.busy 0 0)) /\
  isOK (fst (@unlock_ Sim.Env Sim.Doc (Sim.catalog (Sim.busy 0 0)) 7%N
               (env Sim.world0))) = false /\
  exists tr,
    trace (final (@doTask_cycle Sim.Env Sim.Doc (Sim.catalog (Sim.busy 0 0))
                    (Sim.platform (Sim.busy 0 0))
                    (final (@unlock Sim.Env Sim.Doc (Sim.catalog (Sim.busy 0 0))
                              (Sim.platform (Sim.busy 0 0)) 7%N Sim.world0))))
    = trace (final (@unlock Sim.Env Sim.Doc (Sim.catalog (Sim.busy 0 0))
                      (Sim.platform (Sim.busy 0 0)) 7%N Sim.world0)) ++ tr /\
    In 7%N (unlocked tr).
Proof.
  split; [apply SimFacts.busy_alone|]. split; [reflexivity|].
  apply (@failed_unlock_is_retried Sim.Env Sim.Doc (Sim.catalog (Sim.busy 0 0))
           (Sim.platform (Sim.busy 0 0)) 7%N Sim.world0).
  - apply SimFacts.busy_alone.
  - reflexivity.
  - vm_compute. reflexivity.
Defined.

(** X6, on a fresh manager. *)
Lemma startUp_then_shutDown_witness :
  _execThread (mgr Sim.world0) = None /\
  exists w1 w2 tr,
    @startUp Sim.Env Sim.world0 = Done tt w1 /\
    _execThread (mgr w1) = Some (mkThread true) /\
    @shutDown Sim.Env Sim.Doc (Sim.catalog (Sim.busy 0 0))
              (Sim.platform (Sim.busy 0 0)) w1 = Done tt w2 /\
    trace w2 = trace Sim.world0 ++ tr /\
    thread_events tr = [EvThreadStart; EvThreadJoin] /\
    _execThread (mgr w2) = None /\
    _isShutDown (mgr w2) = true.
Proof.
  split; [reflexivity|].
  apply (@startUp_then_shutDown Sim.Env Sim.Doc (Sim.catalog (Sim.busy 0 0))
           (Sim.platform (Sim.busy 0 0)) Sim.world0).
  reflexivity.
Defined.

(** X8, on a run: a wait of 2 ms against a catalog that always rejects;
    one attempt, a sleep of 2 ms, then LockBusy. *)
Lemma lock_never_gives_up_early_witness :
  Forall (fun st => code st = ErrorCodes.LockStateChangeFailed)
    (grab_statuses
       [EvOIDGen 1%N;
        EvGrabLock "jobs" 1%N "host:27017:conn1" "host:27017" 0 "cleanup"
                   Sim.rejected;
        EvSleepFor 2]) /\
  2 <> 0 /\
  @SW_error ScopedDistLock
            (mkStatus ErrorCodes.LockBusy "timed out waiting for jobs")
  = SW_error (mkStatus ErrorCodes.LockBusy "timed out waiting for jobs") /\
  0 < 2 <= 2 - 0.
Proof.
  split; [repeat constructor|]. split; [discriminate|].
  apply (@lock_never_gives_up_early Sim.Env Sim.Doc (Sim.catalog (Sim.busy 0 0))
           (Sim.platform (Sim.busy 0 0)) 3 "jobs" "cleanup" 2 5 Sim.world0
           (SW_error (mkStatus ErrorCodes.LockBusy "timed out waiting for jobs"))
           (mkWorld Sim.manager0 (Sim.mkEnv 2 2 1 0 0)
              [EvOIDGen 1%N;
               EvGrabLock "jobs" 1%N "host:27017:conn1" "host:27017" 0 "cleanup"
                          Sim.rejected;
               EvSleepFor 2])
           [EvOIDGen 1%N;
            EvGrabLock "jobs" 1%N "host:27017:conn1" "host:27017" 0 "cleanup"
                       Sim.rejected;
            EvSleepFor 2]).
  - vm_compute. reflexivity.
  - reflexivity.
  - repeat constructor.
  - discriminate.
Defined.
